(** * dz_xml: a translator from a small configuration language to XML

    A shallow embedding of [dz_xml.py]: the [BuildAST] transformer, the
    evaluator [eval_config] (with its inner [eval_value] and [eval_expr])
    and the emitter [build_xml].

    Conventions.
    - Python floats are IEEE binary64 numbers: Rocq's primitive [float].
    - A Python [dict] keeps insertion order; assigning to a key that is
      already there keeps its position. It is an association list with
      [dict_setitem] doing exactly that.
    - A Python [list] used as a stack grows and shrinks at its END:
      [append] is [l ++ [x]] and [pop] removes the last element.
    - A raised exception is the [Raise] outcome of a small error monad.
    - [ElementTree] elements are mutable objects that are shared between a
      parent's child list and the variable that names them: they live in a
      store and are named by their index. *)

From Stdlib Require Import ZArith NArith String Ascii List Lia.
From Stdlib Require Import PrimFloat SpecFloat FloatOps.
From stdpp Require Import base tactics option list.
Import ListNotations.

#[local] Set Warnings "-register-all".

Local Open Scope string_scope.
Local Open Scope list_scope.

(** ** Python primitives *)

(** The exceptions the program can raise. [ZeroDivisionError]'s message is
    left out: its text differs between interpreter versions. *)
Inductive exn : Type :=
| ValueError (msg : string)
| ZeroDivisionError
| IndexError (msg : string)
| KeyError (key : string).

Inductive outcome (A : Type) : Type :=
| Ok (a : A)
| Raise (e : exn).
Arguments Ok {A} a.
Arguments Raise {A} e.

Definition bind {A B : Type} (m : outcome A) (k : A -> outcome B) : outcome B :=
  match m with
  | Ok a => k a
  | Raise e => Raise e
  end.

(** A [for] loop whose body may raise: the first exception leaves it. *)
Section ForEach.

Context {S X : Type} (body : S -> X -> outcome S).

Fixpoint for_each (xs : list X) (s : S) : outcome S :=
  match xs with
  | [] => Ok s
  | x :: rest => bind (body s x) (for_each rest)
  end.

End ForEach.

Module Py.

(** *** Floats *)

Definition is_zero (b : float) : bool := PrimFloat.eqb b 0%float.

(** [a / b] on floats: a zero divisor (of either sign) raises, whatever
    [a] is; anything else is the IEEE quotient. *)
Definition truediv (a b : float) : outcome float :=
  if is_zero b then Raise ZeroDivisionError else Ok (PrimFloat.div a b).

(** The builtin [min(a, b)]: the first argument is kept unless the second
    compares strictly below it. *)
Definition min (a b : float) : float :=
  if PrimFloat.ltb b a then b else a.

(** *** [float(token)]

    [float] of a decimal lexeme [digits] or [digits.digits] is the binary64
    number nearest to the decimal value (ties to even). The decimal value
    is [m / 10^k] for the digits read as the integer [m] with [k] of them
    after the point; [SFdiv] rounds that quotient once. *)

Definition digit (c : ascii) : option N :=
  let n := N_of_ascii c in
  if ((48 <=? n) && (n <=? 57))%N then Some (n - 48)%N else None.

(** Reads the longest run of digits: the number they extend [acc] to, how
    many were read, and what follows them. *)
Fixpoint read_digits (s : string) (acc : N) (count : nat) : N * nat * string :=
  match s with
  | String c rest =>
      match digit c with
      | Some d => read_digits rest (10 * acc + d)%N (S count)
      | None => (acc, count, s)
      end
  | EmptyString => (acc, count, s)
  end.

Definition decimal_to_float (m : N) (k : nat) : float :=
  match m with
  | N0 => 0%float
  | Npos p =>
      SF2Prim (SFdiv prec emax (S754_finite false p 0)
                               (S754_finite false (Z.to_pos (10 ^ Z.of_nat k)) 0))
  end.

(** [float] on the lexemes the terminal NUMBER can produce. Anything else
    is refused here; the parser never hands such a token over. *)
Definition float (token : string) : outcome PrimFloat.float :=
  let bad := Raise (ValueError ("could not convert string to float: " ++ token)) in
  match read_digits token 0%N 0 with
  | (_, O, _) => bad
  | (m, S _, EmptyString) => Ok (decimal_to_float m 0)
  | (m, S _, String c frac) =>
      if Ascii.eqb c "."
      then match read_digits frac m 0 with
           | (m', S k, EmptyString) => Ok (decimal_to_float m' (S k))
           | _ => bad
           end
      else bad
  end.

(** *** Insertion-ordered dictionaries *)

Definition dict (V : Type) : Type := list (string * V).

Fixpoint dict_get {V : Type} (d : dict V) (key : string) : option V :=
  match d with
  | [] => None
  | (k, v) :: rest => if String.eqb k key then Some v else dict_get rest key
  end.

(** [key in d] *)
Definition dict_in {V : Type} (key : string) (d : dict V) : bool :=
  match dict_get d key with
  | Some _ => true
  | None => false
  end.

(** [d[key]] *)
Definition dict_getitem {V : Type} (d : dict V) (key : string) : outcome V :=
  match dict_get d key with
  | Some v => Ok v
  | None => Raise (KeyError key)
  end.

(** [d[key] = v]: a key that is already there keeps its place. *)
Fixpoint dict_setitem {V : Type} (d : dict V) (key : string) (v : V) : dict V :=
  match d with
  | [] => [(key, v)]
  | (k, v0) :: rest =>
      if String.eqb k key then (k, v) :: rest
      else (k, v0) :: dict_setitem rest key v
  end.

Definition keys {V : Type} (d : dict V) : list string := map fst d.

(** *** Lists used as stacks *)

(** [l.pop()]: the last element, and the list without it. *)
Fixpoint pop {A : Type} (l : list A) : outcome (A * list A) :=
  match l with
  | [] => Raise (IndexError "pop from empty list")
  | x :: rest =>
      match rest with
      | [] => Ok (x, [])
      | _ :: _ => bind (pop rest) (fun '(y, rest') => Ok (y, x :: rest'))
      end
  end.

(** [l[0]] *)
Definition first {A : Type} (l : list A) : outcome A :=
  match l with
  | [] => Raise (IndexError "list index out of range")
  | x :: _ => Ok x
  end.

End Py.

Notation "'do' x <- m ; k" := (bind m (fun x => k))
  (at level 10, x pattern, m at level 100, k at level 200,
   format "'[v' 'do'  x  <-  m ; '/' k ']'").

(** ** The tree [BuildAST] produces *)

(** An item of an expression: [expr_number] yields a float, every other
    alternative a string (a name, or one of the four operator symbols). *)
Inductive token : Type :=
| TFloat (x : float)
| TStr (s : string).

(** A value node: a float, [("dict", d)] or [("expr", items)]. *)
Inductive node : Type :=
| NFloat (x : float)
| NDict (d : list (string * node))
| NExpr (items : list token).

(** What a declaration resolves to: a float, or a [dict] of resolved values. *)
Inductive value : Type :=
| VFloat (x : float)
| VDict (d : list (string * value)).

(** ** The parse tree handed to [BuildAST]

    One constructor per rule or alias of the grammar, named [T_] and the
    rule; terminals that are not filtered out ([NAME], [NUMBER]) are kept as
    their text. *)
Inductive expr_item : Type :=
| T_expr_number (tok : string)
| T_expr_name (tok : string)
| T_expr_plus
| T_expr_minus
| T_expr_mul
| T_expr_div.

Inductive value_tree : Type :=
| T_number (tok : string)
| T_dictionary (entries : list (string * value_tree))   (* dict_entry* *)
| T_expr (items : list expr_item).

(** [const_decl: NAME ":" value ";"], and [start: statement*]. *)
Definition const_decl : Type := string * value_tree.
Definition start : Type := list const_decl.

(** ** [BuildAST] *)

Module BuildAST.

Definition number (tok : string) : outcome node :=
  do x <- Py.float tok ; Ok (NFloat x).

(** The loop of [dictionary]: [d] is the dictionary built so far. *)
Definition dictionary_step (d : Py.dict node) (item : string * node)
  : outcome (Py.dict node) :=
  let '(key, v) := item in
  if Py.dict_in key d
  then Raise (ValueError ("Duplicate key in dictionary: " ++ key))
  else Ok (Py.dict_setitem d key v).

Definition dictionary (items : list (string * node)) : outcome node :=
  do d <- for_each dictionary_step items [] ; Ok (NDict d).

Definition dict_entry (name_token : string) (v : node) : string * node :=
  (name_token, v).

Definition expr (items : list token) : node := NExpr items.

Definition expr_number (tok : string) : outcome token :=
  do x <- Py.float tok ; Ok (TFloat x).

Definition expr_name (tok : string) : token := TStr tok.
Definition expr_plus : token := TStr "+".
Definition expr_minus : token := TStr "-".
Definition expr_mul : token := TStr "*".
Definition expr_div : token := TStr "/".

Definition const_decl (name_token : string) (v : node) : string * node :=
  (name_token, v).

(** The transformer's traversal: children first and left to right, then
    the callback of the rule; the first exception ends the traversal. (The
    library re-raises it wrapped with the rule's name; the exception kept
    here is the one the callback raised.) *)
Definition transform_item (i : expr_item) : outcome token :=
  match i with
  | T_expr_number tok => expr_number tok
  | T_expr_name tok => Ok (expr_name tok)
  | T_expr_plus => Ok expr_plus
  | T_expr_minus => Ok expr_minus
  | T_expr_mul => Ok expr_mul
  | T_expr_div => Ok expr_div
  end.

(** The children of a node, each transformed in turn. *)
Section Children.

Context {A B : Type} (f : A -> outcome B).

Fixpoint transform_children (cs : list A) : outcome (list B) :=
  match cs with
  | [] => Ok []
  | c :: rest =>
      do c' <- f c ;
      do rest' <- transform_children rest ;
      Ok (c' :: rest')
  end.

End Children.

Fixpoint transform_value (t : value_tree) : outcome node :=
  match t with
  | T_number tok => number tok
  | T_dictionary entries =>
      do items <-
        transform_children
          (fun '(name_token, v) =>
             do v' <- transform_value v ; Ok (dict_entry name_token v'))
          entries ;
      dictionary items
  | T_expr items =>
      do ts <- transform_children transform_item items ; Ok (expr ts)
  end.

Definition transform (tree : start) : outcome (list (string * node)) :=
  transform_children
    (fun '(name_token, v) =>
       do v' <- transform_value v ; Ok (const_decl name_token v'))
    tree.

End BuildAST.

(** ** [eval_config] *)

Definition operators : list string := ["+"; "-"; "*"; "/"; "min"].

(** [tok in {...}] *)
Definition in_set (tok : string) (s : list string) : bool :=
  existsb (String.eqb tok) s.

(** The body of the loop of [eval_expr]: what one token does to the stack.
    A token is a float or a string, so the final [raise] of the loop (for a
    token that is neither) has no case here; an operator string that none
    of the [if]/[elif] tests matches pushes nothing. *)
Definition eval_expr_step (env : Py.dict value) (stack : list float) (tok : token)
  : outcome (list float) :=
  match tok with
  | TFloat x => Ok (stack ++ [x])
  | TStr tok =>
      if in_set tok operators then
        if String.eqb tok "min" then
          if (length stack <? 2)%nat
          then Raise (ValueError "min requires at least two operands")
          else
            do (b, stack) <- Py.pop stack ;
            do (a, stack) <- Py.pop stack ;
            Ok (stack ++ [Py.min a b])
        else
          if (length stack <? 2)%nat
          then Raise (ValueError ("Operator " ++ tok ++ " requires two operands"))
          else
            do (b, stack) <- Py.pop stack ;
            do (a, stack) <- Py.pop stack ;
            if String.eqb tok "+" then Ok (stack ++ [PrimFloat.add a b])
            else if String.eqb tok "-" then Ok (stack ++ [PrimFloat.sub a b])
            else if String.eqb tok "*" then Ok (stack ++ [PrimFloat.mul a b])
            else if String.eqb tok "/" then
              do q <- Py.truediv a b ; Ok (stack ++ [q])
            else Ok stack
      else
        if negb (Py.dict_in tok env)
        then Raise (ValueError ("Unknown constant in expression: " ++ tok))
        else
          do val <- Py.dict_getitem env tok ;
          match val with
          | VFloat x => Ok (stack ++ [x])
          | VDict _ => Raise (ValueError ("Constant " ++ tok ++ " is not numeric"))
          end
  end.

Definition eval_expr (env : Py.dict value) (tokens : list token) : outcome float :=
  do stack <- for_each (eval_expr_step env) tokens [] ;
  if negb (length stack =? 1)%nat
  then Raise (ValueError "Expression did not reduce to a single value")
  else Py.first stack.

(** A node is a float, a dictionary or an expression, so the final [raise]
    of [eval_value] has no case here. *)
Fixpoint eval_value (env : Py.dict value) (n : node) : outcome value :=
  match n with
  | NFloat x => Ok (VFloat x)
  | NDict items =>
      do d <-
        for_each
          (fun d '(k, v_ast) =>
             do v <- eval_value env v_ast ; Ok (Py.dict_setitem d k v))
          items [] ;
      Ok (VDict d)
  | NExpr tokens =>
      do x <- eval_expr env tokens ; Ok (VFloat x)
  end.

(** The loop of [eval_config] carries the two dictionaries [env] and
    [result]; the closures [eval_value] and [eval_expr] read [env]. *)
Definition eval_config_step (st : Py.dict value * Py.dict value)
  (decl : string * node) : outcome (Py.dict value * Py.dict value) :=
  let '(env, result) := st in
  let '(name, val_ast) := decl in
  do v <- eval_value env val_ast ;
  Ok (Py.dict_setitem env name v, Py.dict_setitem result name v).

Definition eval_config (ast : list (string * node)) : outcome (Py.dict value) :=
  do (env, result) <- for_each eval_config_step ast ([], []) ;
  Ok result.

(** [main] between parsing and emitting: transform, then evaluate. *)
Definition translate (tree : start) : outcome (Py.dict value) :=
  do ast <- BuildAST.transform tree ; eval_config ast.

(** ** [xml.etree.ElementTree]

    An element is an object: [SubElement] puts the new element into its
    parent's child list and returns that same object, which the caller goes
    on to change. The store holds the objects; an element is named by its
    index in it. *)

Module ET.

Record element : Type := mk_element {
  tag : string;
  attrib : Py.dict string;
  text : option string;
  children : list nat
}.

Abbreviation store := (list element).

Definition append_child (child : nat) (e : element) : element :=
  mk_element (tag e) (attrib e) (text e) (children e ++ [child]).

Definition assign_text (s : string) (e : element) : element :=
  mk_element (tag e) (attrib e) (Some s) (children e).

(** [ET.Element(tag)] *)
Definition Element (tag : string) (st : store) : nat * store :=
  (length st, st ++ [mk_element tag [] None []]).

(** [ET.SubElement(parent, tag, **extra)] *)
Definition SubElement (parent : nat) (tag : string) (extra : Py.dict string)
  (st : store) : nat * store :=
  let elem := length st in
  (elem, alter (append_child elem) parent (st ++ [mk_element tag extra None []])).

(** [elem.text = s] *)
Definition set_text (elem : nat) (s : string) (st : store) : store :=
  alter (assign_text s) elem st.

(** The tree an element stands for, as the serialiser walks it. *)
Inductive tree : Type :=
| Node (tag : string) (attrib : Py.dict string) (text : option string)
       (children : list tree).

Fixpoint read (fuel : nat) (st : store) (elem : nat) : option tree :=
  match fuel with
  | O => None
  | S fuel =>
      e ← st !! elem;
      kids ← mapM (read fuel st) (children e);
      Some (Node (tag e) (attrib e) (text e) kids)
  end.

End ET.

(** ** [build_xml] *)

Section Emitter.

(** The builtin [str] on floats. *)
Variable str : float -> string.

Fixpoint add_value (parent : nat) (name : string) (v : value) (st : ET.store)
  : ET.store :=
  match v with
  | VDict d =>
      let '(elem, st) := ET.SubElement parent "dict" [("name", name)] st in
      fold_left (fun st '(k, v) => add_value elem k v st) d st
  | VFloat x =>
      let '(elem, st) := ET.SubElement parent "number" [("name", name)] st in
      ET.set_text elem (str x) st
  end.

(** Returns the root together with the store it lives in. *)
Definition build_xml (data : Py.dict value) : nat * ET.store :=
  let '(root, st) := ET.Element "config" [] in
  (root, fold_left (fun st '(name, val) => add_value root name val st) data st).

End Emitter.

(** ** The vocabulary of the specification *)

(** The terminals of the grammar: [NAME: /[a-z][a-z0-9_]*/] and
    [NUMBER: /[0-9]+(\.[0-9]+)?/]. *)

Definition is_digit (c : ascii) : bool :=
  let n := N_of_ascii c in ((48 <=? n) && (n <=? 57))%N.

Definition is_lower (c : ascii) : bool :=
  let n := N_of_ascii c in ((97 <=? n) && (n <=? 122))%N.

Definition is_name_char (c : ascii) : bool :=
  is_lower c || is_digit c || Ascii.eqb c "_".

Fixpoint all_chars (p : ascii -> bool) (s : string) : bool :=
  match s with
  | EmptyString => true
  | String c rest => p c && all_chars p rest
  end.

Definition is_NAME (s : string) : bool :=
  match s with
  | EmptyString => false
  | String c rest => is_lower c && all_chars is_name_char rest
  end.

(** [[0-9]+] followed by what [k] accepts. *)
Fixpoint digits_then (k : string -> bool) (s : string) (seen : bool) : bool :=
  match s with
  | String c rest =>
      if is_digit c then digits_then k rest true else seen && k s
  | EmptyString => seen && k s
  end.

Definition is_NUMBER (s : string) : bool :=
  digits_then
    (fun rest =>
       match rest with
       | EmptyString => true
       | String c frac =>
           Ascii.eqb c "." && digits_then (fun r => String.eqb r "") frac false
       end) s false.

(** A parse tree the parser can produce: every terminal kept in it matches
    its pattern, and an expression has at least one item. *)
Definition valid_item (i : expr_item) : bool :=
  match i with
  | T_expr_number tok => is_NUMBER tok
  | T_expr_name tok => is_NAME tok
  | _ => true
  end.

Fixpoint valid_value (t : value_tree) : bool :=
  match t with
  | T_number tok => is_NUMBER tok
  | T_dictionary entries =>
      forallb (fun '(name_token, v) => is_NAME name_token && valid_value v) entries
  | T_expr items =>
      match items with
      | [] => false
      | _ :: _ => forallb valid_item items
      end
  end.

Definition valid_start (tree : start) : bool :=
  forallb (fun '(name_token, v) => is_NAME name_token && valid_value v) tree.

(** Some key occurs twice in the list. *)
Fixpoint has_dup (ks : list string) : bool :=
  match ks with
  | [] => false
  | k :: rest => existsb (String.eqb k) rest || has_dup rest
  end.

(** Some dictionary literal of the tree repeats one of its own keys. *)
Fixpoint repeats_key (t : value_tree) : bool :=
  match t with
  | T_dictionary entries =>
      existsb (fun '(_, v) => repeats_key v) entries || has_dup (map fst entries)
  | _ => false
  end.

Definition repeats_key_start (tree : start) : bool :=
  existsb (fun '(_, v) => repeats_key v) tree.

(** The error kinds of the specification, as the exceptions the program
    raises for them. *)

Definition DuplicateKeyError (key : string) : exn :=
  ValueError ("Duplicate key in dictionary: " ++ key).

Definition UnknownConstantError (name : string) : exn :=
  ValueError ("Unknown constant in expression: " ++ name).

Definition NonNumericReferenceError (name : string) : exn :=
  ValueError ("Constant " ++ name ++ " is not numeric").

Definition ArityError (tok : string) : exn :=
  if String.eqb tok "min"
  then ValueError "min requires at least two operands"
  else ValueError ("Operator " ++ tok ++ " requires two operands").

Definition MalformedExpressionError : exn :=
  ValueError "Expression did not reduce to a single value".

(** The stack machine of the specification, written from its words: typed
    expression tokens, a stack whose top is the head of the list, and the
    division left open so that both readings of it can be compared with the
    program. *)

Module StackMachine.

Inductive operator : Type := Plus | Minus | Times | Divide.

Inductive ExprToken : Type :=
| Literal (x : float)
| Reference (name : string)
| Operator (op : operator)
| Function_min.

Definition symbol (op : operator) : string :=
  match op with
  | Plus => "+"
  | Minus => "-"
  | Times => "*"
  | Divide => "/"
  end.

(** How the untyped tokens of the program read as typed ones. *)
Definition classify (t : token) : ExprToken :=
  match t with
  | TFloat x => Literal x
  | TStr s =>
      if String.eqb s "+" then Operator Plus
      else if String.eqb s "-" then Operator Minus
      else if String.eqb s "*" then Operator Times
      else if String.eqb s "/" then Operator Divide
      else if String.eqb s "min" then Function_min
      else Reference s
  end.

Section Machine.

Variable divide : float -> float -> outcome float.

Definition apply (op : operator) (a b : float) : outcome float :=
  match op with
  | Plus => Ok (PrimFloat.add a b)
  | Minus => Ok (PrimFloat.sub a b)
  | Times => Ok (PrimFloat.mul a b)
  | Divide => divide a b
  end.

Definition step (env : Py.dict value) (stack : list float) (t : ExprToken)
  : outcome (list float) :=
  match t with
  | Literal x => Ok (x :: stack)
  | Operator op =>
      match stack with
      | b :: a :: rest => do v <- apply op a b ; Ok (v :: rest)
      | _ => Raise (ArityError (symbol op))
      end
  | Function_min =>
      match stack with
      | b :: a :: rest => Ok (Py.min a b :: rest)
      | _ => Raise (ArityError "min")
      end
  | Reference name =>
      match Py.dict_get env name with
      | None => Raise (UnknownConstantError name)
      | Some (VDict _) => Raise (NonNumericReferenceError name)
      | Some (VFloat x) => Ok (x :: stack)
      end
  end.

Definition eval (env : Py.dict value) (tokens : list token) : outcome float :=
  do stack <- for_each (step env) (map classify tokens) [] ;
  match stack with
  | [v] => Ok v
  | _ => Raise MalformedExpressionError
  end.

End Machine.

(** Division as IEEE 754 has it: never an error. *)
Definition ieee_divide (a b : float) : outcome float := Ok (PrimFloat.div a b).

End StackMachine.

(** The output tree of the specification, written from its words: a
    [number] element with the name and the text of the float, a [dict]
    element with the name and the emitted entries in their order, under a
    [config] root. *)

Section Emit.

Variable str : float -> string.

Fixpoint emit_value (name : string) (v : value) : ET.tree :=
  match v with
  | VFloat x => ET.Node "number" [("name", name)] (Some (str x)) []
  | VDict d =>
      ET.Node "dict" [("name", name)] None
              (map (fun '(k, v) => emit_value k v) d)
  end.

Definition emit (data : Py.dict value) : ET.tree :=
  ET.Node "config" [] None (map (fun '(k, v) => emit_value k v) data).

End Emit.

(** ** Definitions the statements and proofs use *)

Definition omap {A B : Type} (f : A -> B) (m : outcome A) : outcome B :=
  do a <- m ; Ok (f a).

(** What one declaration does to the environment. *)
Definition declare (env : Py.dict value) (decl : string * node)
  : outcome (Py.dict value) :=
  let '(name, val_ast) := decl in
  do v <- eval_value env val_ast ; Ok (Py.dict_setitem env name v).

(** The loop of [eval_value] over the entries of a dictionary node. *)
Definition eval_entry (env : Py.dict value) (d : Py.dict value)
  (entry : string * node) : outcome (Py.dict value) :=
  let '(k, v_ast) := entry in
  do v <- eval_value env v_ast ; Ok (Py.dict_setitem d k v).

(** An entry's value comes from [env] and the entry alone. *)
Definition resolves (env : Py.dict value) (entry : string * node)
  (bound : string * value) : Prop :=
  fst bound = fst entry /\ eval_value env (snd entry) = Ok (snd bound).

(** The digits a string starts with, and what comes after them. *)
Fixpoint leading_digits (s : string) : nat :=
  match s with
  | String c rest => if is_digit c then S (leading_digits rest) else 0
  | EmptyString => 0
  end.

Fixpoint after_digits (s : string) : string :=
  match s with
  | String c rest => if is_digit c then after_digits rest else s
  | EmptyString => s
  end.

(** Induction on parse trees, through the entries of a dictionary. *)
Section value_tree_induction.

Variable P : value_tree -> Prop.
Hypothesis P_number : forall tok, P (T_number tok).
Hypothesis P_dictionary :
  forall entries, Forall (fun entry => P (snd entry)) entries ->
                  P (T_dictionary entries).
Hypothesis P_expr : forall items, P (T_expr items).

Fixpoint value_tree_induction (t : value_tree) : P t :=
  match t with
  | T_number tok => P_number tok
  | T_dictionary entries =>
      P_dictionary entries
        ((fix all (es : list (string * value_tree))
            : Forall (fun entry => P (snd entry)) es :=
            match es with
            | [] => List.Forall_nil _
            | (k, v) :: rest =>
                List.Forall_cons _ (k, v) rest (value_tree_induction v) (all rest)
            end) entries)
  | T_expr items => P_expr items
  end.

End value_tree_induction.

(** What the transformer does with a valid tree: it succeeds when no
    dictionary literal repeats a key, and raises the duplicate-key error
    when one does. *)
Definition transform_outcome {A B : Type} (repeats : A -> bool)
  (f : A -> outcome B) (t : A) : Prop :=
  (repeats t = false /\ exists n, f t = Ok n)
  \/ (repeats t = true /\ exists key, f t = Raise (DuplicateKeyError key)).

Definition transform_named (entry : string * value_tree) : outcome (string * node) :=
  let '(name_token, v) := entry in
  do v' <- BuildAST.transform_value v ; Ok (name_token, v').

(** The tree of a source made of declarations [name: NUMBER;] only. *)
Definition numeric_source (decls : list (string * string)) : start :=
  map (fun '(name, tok) => (name, T_number tok)) decls.

Definition literal_node (decl : string * string) (a : string * node) : Prop :=
  fst a = fst decl /\ exists x, Py.float (snd decl) = Ok x /\ snd a = NFloat x.

Definition literal_value (decl : string * string) (bound : string * value) : Prop :=
  fst bound = fst decl /\ exists x, Py.float (snd decl) = Ok x /\ snd bound = VFloat x.

(** Where the elements of a tree lie in the store when they are created in
    document order from index [off] on: the element itself, then its
    children's blocks one after the other. *)

Section Blocks.

Context {A : Type} (size : A -> nat) (layout : A -> nat -> ET.store).

Fixpoint block_ids (ts : list A) (off : nat) : list nat :=
  match ts with
  | [] => []
  | t :: rest => off :: block_ids rest (off + size t)
  end.

Fixpoint blocks (ts : list A) (off : nat) : ET.store :=
  match ts with
  | [] => []
  | t :: rest => layout t off ++ blocks rest (off + size t)
  end.

End Blocks.

Fixpoint size (t : ET.tree) : nat :=
  match t with
  | ET.Node _ _ _ kids => S (list_sum (map size kids))
  end.

Fixpoint layout (t : ET.tree) (off : nat) : ET.store :=
  match t with
  | ET.Node tag attrib text kids =>
      ET.mk_element tag attrib text (block_ids size kids (S off))
      :: blocks size layout kids (S off)
  end.

Section tree_induction.

Variable P : ET.tree -> Prop.
Hypothesis P_Node :
  forall tag attrib text kids, Forall P kids -> P (ET.Node tag attrib text kids).

Fixpoint tree_induction (t : ET.tree) : P t :=
  match t with
  | ET.Node tag attrib text kids =>
      P_Node tag attrib text kids
        ((fix all (ks : list ET.tree) : Forall P ks :=
            match ks with
            | [] => List.Forall_nil _
            | k :: rest => List.Forall_cons _ k rest (tree_induction k) (all rest)
            end) kids)
  end.

End tree_induction.

Section value_induction.

Variable P : value -> Prop.
Hypothesis P_VFloat : forall x, P (VFloat x).
Hypothesis P_VDict :
  forall d, Forall (fun entry => P (snd entry)) d -> P (VDict d).

Fixpoint value_induction (v : value) : P v :=
  match v with
  | VFloat x => P_VFloat x
  | VDict d =>
      P_VDict d
        ((fix all (es : list (string * value))
            : Forall (fun entry => P (snd entry)) es :=
            match es with
            | [] => List.Forall_nil _
            | (k, v) :: rest =>
                List.Forall_cons _ (k, v) rest (value_induction v) (all rest)
            end) d)
  end.

End value_induction.

(** An element with more children at the end of its list. *)
Definition append_children (ids : list nat) (e : ET.element) : ET.element :=
  ET.mk_element (ET.tag e) (ET.attrib e) (ET.text e) (ET.children e ++ ids).

(** What one call of [add_value] writes: the parent gains the new element
    as its last child, the block of the emitted tree is appended to the
    store, and nothing else changes. *)
Definition writes_block (str : float -> string) (v : value) : Prop :=
  forall parent name st,
    parent < length st ->
    add_value str parent name v st =
    alter (ET.append_child (length st)) parent st
    ++ layout (emit_value str name v) (length st).

(** ** Definitions for the further properties *)

(** The tokens of an expression that consume two values, and those that
    push one. *)
Definition is_operator_token (t : token) : bool :=
  match t with
  | TFloat _ => false
  | TStr s => in_set s operators
  end.

Definition operator_count (tokens : list token) : nat :=
  length (List.filter is_operator_token tokens).

Definition operand_count (tokens : list token) : nat :=
  length (List.filter (fun t => negb (is_operator_token t)) tokens).


(** Induction on nodes, through the entries of a dictionary. *)
Section node_induction.

Variable P : node -> Prop.
Hypothesis P_NFloat : forall x, P (NFloat x).
Hypothesis P_NDict :
  forall items, Forall (fun entry => P (snd entry)) items -> P (NDict items).
Hypothesis P_NExpr : forall tokens, P (NExpr tokens).

Fixpoint node_induction (n : node) : P n :=
  match n with
  | NFloat x => P_NFloat x
  | NDict items =>
      P_NDict items
        ((fix all (es : list (string * node))
            : Forall (fun entry => P (snd entry)) es :=
            match es with
            | [] => List.Forall_nil _
            | (k, v) :: rest =>
                List.Forall_cons _ (k, v) rest (node_induction v) (all rest)
            end) items)
  | NExpr tokens => P_NExpr tokens
  end.

End node_induction.

(** The names of a list, each kept at its first occurrence. *)
Fixpoint first_occurrences (ks : list string) : list string :=
  match ks with
  | [] => []
  | k :: rest =>
      k :: List.filter (fun k' => negb (String.eqb k k')) (first_occurrences rest)
  end.

(** The names an expression, or a node with its nested entries, mentions. *)
Definition token_names (tokens : list token) : list string :=
  flat_map (fun t => match t with TStr s => [s] | TFloat _ => [] end) tokens.

Fixpoint mentioned (n : node) : list string :=
  match n with
  | NFloat _ => []
  | NDict items => flat_map (fun '(_, v) => mentioned v) items
  | NExpr tokens => token_names tokens
  end.

(** [env'] binds every name [env] binds, to the same value. *)
Definition extends (env env' : Py.dict value) : Prop :=
  forall k v, Py.dict_get env k = Some v -> Py.dict_get env' k = Some v.

(** No dictionary of the node, at any depth, has a key twice. *)
Fixpoint unique_keys (n : node) : bool :=
  match n with
  | NDict items =>
      negb (has_dup (map fst items)) && forallb (fun '(_, v) => unique_keys v) items
  | _ => true
  end.

(** The value has the shape of the node: a number for a number or an
    expression, and for a dictionary a dictionary with the same keys in the
    same order, entry by entry of the same shape. *)
Fixpoint shape_matches (n : node) (v : value) : bool :=
  match n, v with
  | NDict items, VDict d =>
      (fix entries (its : list (string * node)) (d : list (string * value)) : bool :=
         match its, d with
         | [], [] => true
         | (k, n') :: its', (k', v') :: d' =>
             String.eqb k k' && shape_matches n' v' && entries its' d'
         | _, _ => false
         end) items d
  | NDict _, VFloat _ => false
  | _, VFloat _ => true
  | _, VDict _ => false
  end.

(** The number of elements a value is emitted as: one for a number, one
    for a dictionary and those of its entries. *)
Fixpoint value_size (v : value) : nat :=
  match v with
  | VFloat _ => 1
  | VDict d => S (list_sum (map (fun '(_, v) => value_size v) d))
  end.

(** An element that stands for an entry: only the attribute [name]; a
    [number] with a text and no children, or a [dict] without text. *)
Definition entry_element (e : ET.element) : Prop :=
  (exists name, ET.attrib e = [("name", name)])
  /\ ((ET.tag e = "number" /\ ET.children e = [] /\ exists s, ET.text e = Some s)
      \/ (ET.tag e = "dict" /\ ET.text e = None)).

(** Two values that print alike: the same names with the same nesting in
    the same order, and numbers with the same text. *)
Section SamePrint.

Variable str : float -> string.

Fixpoint same_print (v w : value) : Prop :=
  match v, w with
  | VFloat x, VFloat y => str x = str y
  | VDict d, VDict d' =>
      (fix entries (d d' : list (string * value)) : Prop :=
         match d, d' with
         | [], [] => True
         | (k, v) :: rest, (k', w) :: rest' =>
             k = k' /\ same_print v w /\ entries rest rest'
         | _, _ => False
         end) d d'
  | _, _ => False
  end.

End SamePrint.

(** * Properties *)

(** ** The error monad and the Python containers *)

Lemma for_each_app {S X : Type} (body : S -> X -> outcome S) (xs ys : list X) (s : S) :
  for_each body (xs ++ ys) s = bind (for_each body xs s) (for_each body ys).
Proof.
  revert s. induction xs as [|x xs IH]; intros s; simpl; [reflexivity|].
  destruct (body s x) as [s'|e]; simpl; [apply IH | reflexivity].
Qed.

Lemma pop_snoc {A : Type} (l : list A) (x : A) : Py.pop (l ++ [x]) = Ok (x, l).
Proof.
  induction l as [|y l IH]; simpl; [reflexivity|].
  destruct (l ++ [x]) eqn:E.
  - now destruct l.
  - rewrite IH. reflexivity.
Qed.

(** A stack is empty, holds one value, or ends in two. *)
Lemma stack_cases {A : Type} (l : list A) :
  l = [] \/ (exists a, l = [a]) \/ (exists rest a b, l = rest ++ [a; b]).
Proof.
  destruct l as [|b l] using rev_ind; [now left|].
  destruct l as [|a l _] using rev_ind; [right; left; eauto|].
  right; right. exists l, a, b. now rewrite <- app_assoc.
Qed.

Ltac stack_shape stack :=
  destruct (stack_cases stack) as [->|[[a ->]|(rest & a & b & ->)]].

Lemma length_two_more {A : Type} (rest : list A) (a b : A) :
  (length (rest ++ [a; b]) <? 2)%nat = false.
Proof. apply Nat.ltb_ge. rewrite length_app. simpl. lia. Qed.

Lemma dict_get_setitem_eq {V : Type} (d : Py.dict V) (k : string) (v : V) :
  Py.dict_get (Py.dict_setitem d k v) k = Some v.
Proof.
  induction d as [|[k0 v0] d IH]; simpl.
  - now rewrite String.eqb_refl.
  - destruct (String.eqb k0 k) eqn:E; simpl; rewrite E; [reflexivity | exact IH].
Qed.

Lemma dict_get_setitem_ne {V : Type} (d : Py.dict V) (k k' : string) (v : V) :
  k <> k' -> Py.dict_get (Py.dict_setitem d k v) k' = Py.dict_get d k'.
Proof.
  intros Hne. induction d as [|[k0 v0] d IH]; simpl.
  - apply String.eqb_neq in Hne. now rewrite Hne.
  - destruct (String.eqb k0 k) eqn:E; simpl.
    + apply String.eqb_eq in E. subst k0.
      apply String.eqb_neq in Hne. now rewrite Hne.
    + destruct (String.eqb k0 k'); [reflexivity | exact IH].
Qed.

Lemma dict_get_None {V : Type} (d : Py.dict V) (k : string) :
  Py.dict_get d k = None <-> ~ In k (Py.keys d).
Proof.
  unfold Py.keys.
  induction d as [|[k0 v0] d IH]; simpl; [tauto|].
  destruct (String.eqb k0 k) eqn:E.
  - apply String.eqb_eq in E. split; [discriminate | intros H; exfalso; apply H; now left].
  - apply String.eqb_neq in E. rewrite IH. tauto.
Qed.

Lemma dict_in_keys {V : Type} (d : Py.dict V) (k : string) :
  Py.dict_in k d = true <-> In k (Py.keys d).
Proof.
  unfold Py.dict_in. destruct (Py.dict_get d k) eqn:E.
  - split; [intros _ | reflexivity].
    destruct (in_dec string_dec k (Py.keys d)) as [Hin|Hn]; [exact Hin|].
    apply dict_get_None in Hn. congruence.
  - apply dict_get_None in E. split; [discriminate | tauto].
Qed.

Lemma dict_setitem_fresh {V : Type} (d : Py.dict V) (k : string) (v : V) :
  ~ In k (Py.keys d) -> Py.dict_setitem d k v = d ++ [(k, v)].
Proof.
  unfold Py.keys.
  induction d as [|[k0 v0] d IH]; simpl; intros Hn; [reflexivity|].
  destruct (String.eqb k0 k) eqn:E.
  - apply String.eqb_eq in E. tauto.
  - rewrite IH; tauto.
Qed.

Lemma keys_setitem {V : Type} (d : Py.dict V) (k k' : string) (v : V) :
  In k' (Py.keys (Py.dict_setitem d k v)) <-> k' = k \/ In k' (Py.keys d).
Proof.
  unfold Py.keys.
  induction d as [|[k0 v0] d IH]; simpl; [intuition congruence|].
  destruct (String.eqb k0 k) eqn:E; simpl.
  - apply String.eqb_eq in E. subst. intuition congruence.
  - rewrite IH. tauto.
Qed.

(** ** One step of [eval_expr] *)

Import StackMachine.

Lemma in_set_cases (s : string) :
  s = "+" \/ s = "-" \/ s = "*" \/ s = "/" \/ s = "min"
  \/ (in_set s operators = false /\ classify (TStr s) = Reference s).
Proof.
  unfold in_set, operators, classify. simpl.
  destruct (String.eqb_spec s "+"); [tauto|].
  destruct (String.eqb_spec s "-"); [tauto|].
  destruct (String.eqb_spec s "*"); [tauto|].
  destruct (String.eqb_spec s "/"); [tauto|].
  destruct (String.eqb_spec s "min"); tauto.
Qed.

(** The kinds of string token: the four operators, [min], or a reference. *)
Ltac token_kind s :=
  destruct (in_set_cases s) as [->|[->|[->|[->|[->|[Hin Hcl]]]]]].

Lemma pop_two {A : Type} (rest : list A) (a b : A) :
  Py.pop (rest ++ [a; b]) = Ok (b, rest ++ [a]).
Proof. change [a; b] with ([a] ++ [b]). rewrite app_assoc. apply pop_snoc. Qed.

Lemma step_operator (env : Py.dict value) (op : operator) (rest : list float)
  (a b : float) :
  eval_expr_step env (rest ++ [a; b]) (TStr (symbol op)) =
  do v <- apply Py.truediv op a b ; Ok (rest ++ [v]).
Proof.
  unfold eval_expr_step.
  assert (Hin : in_set (symbol op) operators = true) by now destruct op.
  assert (Hmin : String.eqb (symbol op) "min" = false) by now destruct op.
  rewrite Hin, Hmin, length_two_more, pop_two. simpl.
  rewrite pop_snoc. simpl.
  destruct op; reflexivity.
Qed.

Lemma step_operator_short (env : Py.dict value) (op : operator) (stack : list float) :
  (length stack < 2)%nat ->
  eval_expr_step env stack (TStr (symbol op)) = Raise (ArityError (symbol op)).
Proof.
  intros Hlen. apply Nat.ltb_lt in Hlen.
  unfold eval_expr_step, ArityError.
  assert (Hin : in_set (symbol op) operators = true) by now destruct op.
  assert (Hmin : String.eqb (symbol op) "min" = false) by now destruct op.
  now rewrite Hin, Hmin, Hlen.
Qed.

Lemma step_min (env : Py.dict value) (rest : list float) (a b : float) :
  eval_expr_step env (rest ++ [a; b]) (TStr "min") = Ok (rest ++ [Py.min a b]).
Proof.
  unfold eval_expr_step.
  change (in_set "min" operators) with true.
  change (String.eqb "min" "min") with true.
  cbv iota. rewrite length_two_more, pop_two. simpl.
  now rewrite pop_snoc.
Qed.

Lemma step_min_short (env : Py.dict value) (stack : list float) :
  (length stack < 2)%nat ->
  eval_expr_step env stack (TStr "min") = Raise (ArityError "min").
Proof.
  intros Hlen. apply Nat.ltb_lt in Hlen.
  unfold eval_expr_step.
  change (in_set "min" operators) with true.
  change (String.eqb "min" "min") with true.
  cbv iota. now rewrite Hlen.
Qed.

Lemma step_reference (env : Py.dict value) (stack : list float) (name : string) :
  in_set name operators = false ->
  eval_expr_step env stack (TStr name) =
  match Py.dict_get env name with
  | None => Raise (UnknownConstantError name)
  | Some (VDict _) => Raise (NonNumericReferenceError name)
  | Some (VFloat x) => Ok (stack ++ [x])
  end.
Proof.
  intros Hin. unfold eval_expr_step. rewrite Hin.
  unfold Py.dict_in, Py.dict_getitem.
  destruct (Py.dict_get env name) as [[x|d]|]; reflexivity.
Qed.

(** ** The program against the stack machine

    The program's stack is a Python list with its top at the end; the
    machine's has its top at the head. One is the reverse of the other at
    every step. *)

Lemma operator_case (op : operator) (env : Py.dict value) (stack : list float) :
  eval_expr_step env stack (TStr (symbol op)) =
  omap (@rev float) (step Py.truediv env (rev stack) (Operator op)).
Proof.
  stack_shape stack.
  - now rewrite step_operator_short by (simpl; lia).
  - now rewrite step_operator_short by (simpl; lia).
  - rewrite step_operator, rev_app_distr. simpl.
    destruct (apply Py.truediv op a b) as [v|e]; unfold omap; simpl;
      [now rewrite rev_involutive | reflexivity].
Qed.

Lemma step_simulates (env : Py.dict value) (stack : list float) (t : token) :
  eval_expr_step env stack t =
  omap (@rev float) (step Py.truediv env (rev stack) (classify t)).
Proof.
  destruct t as [x|s].
  - simpl. unfold omap. simpl. now rewrite rev_involutive.
  - token_kind s.
    + apply (operator_case Plus).
    + apply (operator_case Minus).
    + apply (operator_case Times).
    + apply (operator_case Divide).
    + stack_shape stack.
      * now rewrite step_min_short by (simpl; lia).
      * now rewrite step_min_short by (simpl; lia).
      * rewrite step_min, rev_app_distr. unfold omap. simpl.
        now rewrite rev_involutive.
    + rewrite step_reference by exact Hin. rewrite Hcl. simpl.
      destruct (Py.dict_get env s) as [[x|d]|]; try reflexivity.
      unfold omap. simpl. now rewrite rev_involutive.
Qed.

Lemma run_simulates (env : Py.dict value) (tokens : list token) (stack : list float) :
  for_each (eval_expr_step env) tokens stack =
  omap (@rev float)
       (for_each (step Py.truediv env) (map classify tokens) (rev stack)).
Proof.
  revert stack. induction tokens as [|t tokens IH]; intros stack; simpl.
  - unfold omap. simpl. now rewrite rev_involutive.
  - rewrite step_simulates.
    destruct (step Py.truediv env (rev stack) (classify t)) as [stack'|e]; simpl.
    + rewrite IH, rev_involutive. reflexivity.
    + reflexivity.
Qed.

(** The check after the loop, in the shape the specification gives it. *)
Lemma eval_expr_final (env : Py.dict value) (tokens : list token) :
  eval_expr env tokens =
  match for_each (eval_expr_step env) tokens [] with
  | Ok [v] => Ok v
  | Ok _ => Raise MalformedExpressionError
  | Raise e => Raise e
  end.
Proof.
  unfold eval_expr.
  destruct (for_each (eval_expr_step env) tokens []) as [[|v [|w stack]]|e];
    reflexivity.
Qed.

Lemma eval_expr_refines (env : Py.dict value) (tokens : list token) :
  eval_expr env tokens = eval Py.truediv env tokens.
Proof.
  rewrite eval_expr_final. unfold eval. rewrite run_simulates.
  change (rev []) with (@nil float).
  destruct (for_each (step Py.truediv env) (map classify tokens) [])
    as [[|v [|w stack]]|e]; try reflexivity.
  unfold omap, bind.
  destruct (rev (v :: w :: stack)) as [|x [|y l]] eqn:E;
    apply (f_equal (@length float)) in E; rewrite length_rev in E;
    simpl in E; try lia.
  reflexivity.
Qed.

(** A name of the grammar is never an operator symbol; [min] is the one
    name the evaluator sets apart. *)
Lemma name_not_operator (name : string) :
  is_NAME name = true -> name <> "min" -> in_set name operators = false.
Proof.
  intros Hname Hmin.
  token_kind name; try discriminate; [congruence | exact Hin].
Qed.

(** The step on a token does not depend on what [env] binds [min] to. *)
Lemma step_ignores_min (env env' : Py.dict value) (stack : list float) (t : token) :
  (forall k, k <> "min" -> Py.dict_get env k = Py.dict_get env' k) ->
  eval_expr_step env stack t = eval_expr_step env' stack t.
Proof.
  intros Hagree. destruct t as [x|s]; [reflexivity|].
  token_kind s; try reflexivity.
  rewrite !step_reference by exact Hin.
  rewrite Hagree; [reflexivity|].
  intros ->. discriminate.
Qed.

Lemma run_ignores_min (env env' : Py.dict value) (tokens : list token)
  (stack : list float) :
  (forall k, k <> "min" -> Py.dict_get env k = Py.dict_get env' k) ->
  for_each (eval_expr_step env) tokens stack =
  for_each (eval_expr_step env') tokens stack.
Proof.
  intros Hagree. revert stack.
  induction tokens as [|t tokens IH]; intros stack; simpl; [reflexivity|].
  rewrite (step_ignores_min env env') by exact Hagree.
  destruct (eval_expr_step env' stack t); simpl; [apply IH | reflexivity].
Qed.

(** ** Division *)

(** C1 (as amended): whenever the division operator meets a divisor equal to
    zero (of either sign), whatever the dividend, the evaluation of the
    expression fails with [ZeroDivisionError]: no infinity or NaN is pushed,
    the tokens after the operator are not evaluated, and the value node that
    holds the expression fails in the same way. *)
Theorem division_by_zero_raises (env : Py.dict value) (before after : list token)
  (rest : list float) (a b : float) :
  for_each (eval_expr_step env) before [] = Ok (rest ++ [a; b]) ->
  Py.is_zero b = true ->
  eval_expr_step env (rest ++ [a; b]) (TStr "/") = Raise ZeroDivisionError
  /\ eval_expr env (before ++ TStr "/" :: after) = Raise ZeroDivisionError
  /\ eval_value env (NExpr (before ++ TStr "/" :: after)) = Raise ZeroDivisionError.
Proof.
  intros Hrun Hzero.
  assert (Hstep : eval_expr_step env (rest ++ [a; b]) (TStr "/")
                  = Raise ZeroDivisionError).
  { change "/" with (symbol Divide). rewrite step_operator. simpl.
    unfold Py.truediv. now rewrite Hzero. }
  assert (Hexpr : eval_expr env (before ++ TStr "/" :: after)
                  = Raise ZeroDivisionError).
  { unfold eval_expr. rewrite for_each_app, Hrun. cbn [bind for_each].
    now rewrite Hstep. }
  repeat split; [exact Hstep | exact Hexpr |].
  simpl. now rewrite Hexpr.
Qed.

Lemma division_by_zero_raises_witness :
  eval_expr [] ([TFloat 1; TFloat 0] ++ TStr "/" :: [TFloat 2; TStr "+"])
  = Raise ZeroDivisionError.
Proof.
  refine (proj1 (proj2 (division_by_zero_raises [] [TFloat 1; TFloat 0]
                          [TFloat 2; TStr "+"] [] 1 0 _ _))).
  - reflexivity.
  - reflexivity.
Defined.

(** The specification's reading of division, at [$ 1 0 / $]: the machine
    with IEEE division yields infinity, the program raises. *)
Lemma division_by_zero_counterexample :
  Py.is_zero 0 = true
  /\ PrimFloat.div 1 0 = infinity
  /\ eval ieee_divide [] [TFloat 1; TFloat 0; TStr "/"] = Ok infinity
  /\ eval_expr_step [] [1%float; 0%float] (TStr "/") = Raise ZeroDivisionError
  /\ eval_expr [] [TFloat 1; TFloat 0; TStr "/"] = Raise ZeroDivisionError
  /\ eval_expr [] [TFloat 1; TFloat 0; TStr "/"] <> Ok infinity
  /\ eval_expr [] [TFloat 0; TFloat 0; TStr "/"] = Raise ZeroDivisionError
  /\ Py.truediv 1 (-0) = Raise ZeroDivisionError
  /\ translate [("x", T_expr [T_expr_number "1"; T_expr_number "0"; T_expr_div])]
     = Raise ZeroDivisionError.
Proof. repeat split; try reflexivity. discriminate. Qed.

(** ** The stack machine *)

(** C3: the expression evaluator is the left-to-right stack machine of the
    specification (with Python's operators): on an operator the value popped
    first is the right operand [b], the next one the left operand [a], and
    [a op b] is pushed; with fewer than two values on the stack the operator
    fails with the arity error; after the last token exactly one value must
    be left, anything else is the malformed-expression error. So the tree of
    [$ 10 2 3 - - $] evaluates to [10 - (2 - 3) = 11.0]. *)
Theorem eval_expr_stack_machine :
  (forall env tokens, eval_expr env tokens = eval Py.truediv env tokens)
  /\ (forall env op rest a b,
        eval_expr_step env (rest ++ [a; b]) (TStr (symbol op)) =
        do v <- apply Py.truediv op a b ; Ok (rest ++ [v]))
  /\ (forall env op,
        eval_expr_step env [] (TStr (symbol op)) = Raise (ArityError (symbol op))
        /\ forall a,
           eval_expr_step env [a] (TStr (symbol op)) = Raise (ArityError (symbol op)))
  /\ (forall env tokens,
        eval_expr env tokens =
        match for_each (eval_expr_step env) tokens [] with
        | Ok [v] => Ok v
        | Ok _ => Raise MalformedExpressionError
        | Raise e => Raise e
        end)
  /\ translate [("x", T_expr [T_expr_number "10"; T_expr_number "2";
                              T_expr_number "3"; T_expr_minus; T_expr_minus])]
     = Ok [("x", VFloat (10 - (2 - 3)))]
  /\ (10 - (2 - 3) = 11)%float.
Proof.
  split; [exact eval_expr_refines|].
  split; [intros; apply step_operator|].
  split.
  { intros env op. split; [|intros a];
      apply step_operator_short; simpl; lia. }
  split; [exact eval_expr_final|].
  split; reflexivity.
Qed.

(** ** References *)

(** C5: for a token that is a reference (a name of the grammar other than
    [min]): a name absent from the environment fails with the
    unknown-constant error, a name bound to a dictionary fails with the
    non-numeric-reference error, and otherwise the bound number is pushed. *)
Theorem reference_token (env : Py.dict value) (stack : list float) (name : string) :
  is_NAME name = true -> name <> "min" ->
  eval_expr_step env stack (TStr name) =
  match Py.dict_get env name with
  | None => Raise (UnknownConstantError name)
  | Some (VDict _) => Raise (NonNumericReferenceError name)
  | Some (VFloat x) => Ok (stack ++ [x])
  end.
Proof.
  intros Hname Hmin. apply step_reference. now apply name_not_operator.
Qed.

Lemma reference_token_witness :
  eval_expr_step [("d", VDict [("a", VFloat 1)]); ("n", VFloat 2)] [7%float] (TStr "n")
  = Ok [7%float; 2%float].
Proof.
  refine (reference_token _ _ "n" _ _).
  - reflexivity.
  - discriminate.
Defined.

(** The two failing sources of the specification. *)
Example unknown_constant_source :
  translate [("y", T_expr [T_expr_name "z"; T_expr_number "1"; T_expr_plus])]
  = Raise (UnknownConstantError "z").
Proof. reflexivity. Qed.

Example non_numeric_reference_source :
  translate [("d", T_dictionary [("a", T_number "1")]);
             ("e", T_expr [T_expr_name "d"; T_expr_number "1"; T_expr_plus])]
  = Raise (NonNumericReferenceError "d").
Proof. reflexivity. Qed.

(** ** The function [min] *)

(** C6: [min] reaches the evaluator as an ordinary name item, and is
    evaluated as a binary function: the value popped first is [b], the next
    one [a], and [min(a, b)] is pushed; with fewer than two values on the
    stack it fails with the arity error. So [x: $ 3 4 min $;] resolves [x]
    to [3.0]. *)
Theorem min_is_binary_function :
  is_NAME "min" = true
  /\ BuildAST.transform_item (T_expr_name "min") = Ok (TStr "min")
  /\ (forall env rest a b,
        eval_expr_step env (rest ++ [a; b]) (TStr "min") = Ok (rest ++ [Py.min a b]))
  /\ (forall env,
        eval_expr_step env [] (TStr "min") = Raise (ArityError "min")
        /\ forall a, eval_expr_step env [a] (TStr "min") = Raise (ArityError "min"))
  /\ translate [("x", T_expr [T_expr_number "3"; T_expr_number "4"; T_expr_name "min"])]
     = Ok [("x", VFloat 3)].
Proof.
  split; [reflexivity|]. split; [reflexivity|].
  split; [intros; apply step_min|].
  split; [|reflexivity].
  intros env. split; [|intros a]; apply step_min_short; simpl; lia.
Qed.

(** C10: inside an expression the token [min] is the binary function even
    when the environment binds a constant of that name: the outcome of an
    expression does not depend on what [min] is bound to, an expression made
    of the token [min] alone fails with the arity error whatever [min] is
    bound to, and so does the source [min: 5; x: $ min $;]. *)
Theorem min_shadows_constant :
  (forall env env' tokens,
     (forall k, k <> "min" -> Py.dict_get env k = Py.dict_get env' k) ->
     eval_expr env tokens = eval_expr env' tokens)
  /\ (forall env v,
        Py.dict_get env "min" = Some v ->
        eval_expr env [TStr "min"] = Raise (ArityError "min"))
  /\ translate [("min", T_number "5"); ("x", T_expr [T_expr_name "min"])]
     = Raise (ArityError "min").
Proof.
  split; [|split; [|reflexivity]].
  - intros env env' tokens Hagree. unfold eval_expr.
    now rewrite (run_ignores_min env env') by exact Hagree.
  - intros env v _. unfold eval_expr. cbn [bind for_each].
    now rewrite step_min_short by (simpl; lia).
Qed.

Lemma min_shadows_constant_witness :
  eval_expr [("min", VFloat 5)] [TFloat 3; TFloat 4; TStr "min"]
  = eval_expr [] [TFloat 3; TFloat 4; TStr "min"]
  /\ eval_expr [("min", VFloat 5)] [TStr "min"] = Raise (ArityError "min").
Proof.
  split.
  - refine (proj1 min_shadows_constant [("min", VFloat 5)] [] _ _).
    intros k Hk. unfold Py.dict_get.
    destruct (String.eqb_spec "min" k); [congruence | reflexivity].
  - refine (proj1 (proj2 min_shadows_constant) [("min", VFloat 5)] (VFloat 5) _).
    reflexivity.
Defined.

(** ** Declarations in order *)

(** [env] and [result] receive the same assignments: they stay equal. *)
Lemma eval_config_loop (ast : list (string * node)) (d : Py.dict value) :
  for_each eval_config_step ast (d, d) =
  omap (fun env => (env, env)) (for_each declare ast d).
Proof.
  revert d. induction ast as [|[name n] ast IH]; intros d; [reflexivity|].
  cbn [for_each eval_config_step declare].
  destruct (eval_value d n) as [v|e]; [|reflexivity].
  cbn [bind]. apply IH.
Qed.

Lemma eval_config_declare (ast : list (string * node)) :
  eval_config ast = for_each declare ast [].
Proof.
  unfold eval_config. rewrite eval_config_loop.
  now destruct (for_each declare ast []).
Qed.

Lemma eval_config_snoc (ast : list (string * node)) (name : string) (n : node) :
  eval_config (ast ++ [(name, n)]) =
  do env <- eval_config ast ;
  do v <- eval_value env n ;
  Ok (Py.dict_setitem env name v).
Proof.
  rewrite !eval_config_declare, for_each_app.
  destruct (for_each declare ast []) as [env|e]; [|reflexivity].
  cbn [bind for_each declare].
  now destruct (eval_value env n).
Qed.

Lemma declare_keys (ast : list (string * node)) (d env : Py.dict value) :
  for_each declare ast d = Ok env ->
  forall k, In k (Py.keys env) <-> In k (Py.keys d) \/ In k (map fst ast).
Proof.
  revert d. induction ast as [|[name n] ast IH]; intros d Hrun k.
  - simpl in Hrun. injection Hrun as <-. simpl. tauto.
  - cbn [for_each declare] in Hrun.
    destruct (eval_value d n) as [v|e]; [|discriminate].
    cbn [bind] in Hrun. rewrite (IH _ Hrun), keys_setitem. simpl.
    intuition congruence.
Qed.

(** A reference to a name that no earlier declaration binds stops the whole
    evaluation, whatever follows. *)
Lemma undeclared_reference (before after : list (string * node))
  (env : Py.dict value) (name r : string) (pre post : list token)
  (stack : list float) :
  eval_config before = Ok env ->
  for_each (eval_expr_step env) pre [] = Ok stack ->
  in_set r operators = false ->
  ~ In r (map fst before) ->
  eval_config (before ++ (name, NExpr (pre ++ TStr r :: post)) :: after)
  = Raise (UnknownConstantError r).
Proof.
  intros Hbefore Hpre Hop Hnot.
  assert (Hget : Py.dict_get env r = None).
  { apply dict_get_None. intros Hin.
    rewrite eval_config_declare in Hbefore.
    apply (declare_keys _ _ _ Hbefore) in Hin. simpl in Hin. tauto. }
  rewrite eval_config_declare in *.
  rewrite for_each_app, Hbefore.
  cbn [bind for_each declare eval_value].
  unfold eval_expr. rewrite for_each_app, Hpre.
  cbn [bind for_each]. rewrite step_reference by exact Hop.
  now rewrite Hget.
Qed.

(** C7: declarations are evaluated in source order, each one against the
    environment the declarations before it have produced: that environment
    binds exactly the names declared before, the value of a declaration is
    bound to its name for the declarations after it, a reference to a
    number bound there pushes it, and a reference to a name that is not
    declared before (the declaration's own name and the later ones
    included) fails with the unknown-constant error. So
    [a: 2; b: $ a 3 + $;] resolves [a] to [2.0] and [b] to [5.0]. *)
Theorem declarations_in_source_order :
  (forall ast name n,
     eval_config (ast ++ [(name, n)]) =
     do env <- eval_config ast ;
     do v <- eval_value env n ;
     Ok (Py.dict_setitem env name v))
  /\ (forall ast env,
        eval_config ast = Ok env ->
        forall k, In k (Py.keys env) <-> In k (map fst ast))
  /\ (forall ast env name n v,
        eval_config ast = Ok env ->
        eval_value env n = Ok v ->
        exists env',
          eval_config (ast ++ [(name, n)]) = Ok env'
          /\ Py.dict_get env' name = Some v
          /\ forall k, k <> name -> Py.dict_get env' k = Py.dict_get env k)
  /\ (forall ast env r x stack,
        eval_config ast = Ok env ->
        Py.dict_get env r = Some (VFloat x) ->
        is_NAME r = true -> r <> "min" ->
        eval_expr_step env stack (TStr r) = Ok (stack ++ [x]))
  /\ (forall before after env name r pre post stack,
        eval_config before = Ok env ->
        for_each (eval_expr_step env) pre [] = Ok stack ->
        is_NAME r = true -> r <> "min" ->
        ~ In r (map fst before) ->
        eval_config (before ++ (name, NExpr (pre ++ TStr r :: post)) :: after)
        = Raise (UnknownConstantError r))
  /\ translate [("a", T_number "2");
                ("b", T_expr [T_expr_name "a"; T_expr_number "3"; T_expr_plus])]
     = Ok [("a", VFloat 2); ("b", VFloat 5)].
Proof.
  split; [exact eval_config_snoc|].
  split.
  { intros ast env Hrun k. rewrite eval_config_declare in Hrun.
    rewrite (declare_keys _ _ _ Hrun). simpl. tauto. }
  split.
  { intros ast env name n v Hrun Hv.
    exists (Py.dict_setitem env name v).
    rewrite eval_config_snoc, Hrun. cbn [bind]. rewrite Hv. cbn [bind].
    split; [reflexivity|].
    split; [apply dict_get_setitem_eq|].
    intros k Hk. apply dict_get_setitem_ne. congruence. }
  split.
  { intros ast env r x stack _ Hget Hname Hmin.
    rewrite step_reference by now apply name_not_operator.
    now rewrite Hget. }
  split; [|reflexivity].
  intros before after env name r pre post stack Hrun Hpre Hname Hmin Hnot.
  eapply undeclared_reference; eauto using name_not_operator.
Qed.

Lemma declarations_in_source_order_witness :
  (forall k, In k (Py.keys [("a", VFloat 2)]) <-> In k (map fst [("a", NFloat 2)]))
  /\ (exists env',
        eval_config ([("a", NFloat 2)] ++ [("a", NExpr [TStr "a"; TFloat 3; TStr "+"])])
        = Ok env'
        /\ Py.dict_get env' "a" = Some (VFloat 5)
        /\ forall k, k <> "a" -> Py.dict_get env' k = Py.dict_get [("a", VFloat 2)] k)
  /\ eval_expr_step [("a", VFloat 2)] [] (TStr "a") = Ok ([] ++ [2%float])
  /\ eval_config ([("a", NFloat 2)]
                  ++ ("b", NExpr ([TFloat 1] ++ TStr "c" :: [TStr "+"]))
                  :: [("c", NFloat 3)])
     = Raise (UnknownConstantError "c").
Proof.
  destruct declarations_in_source_order as (_ & Hkeys & Hbind & Href & Hlater & _).
  split; [|split; [|split]].
  - refine (Hkeys [("a", NFloat 2)] [("a", VFloat 2)] _). reflexivity.
  - refine (Hbind [("a", NFloat 2)] [("a", VFloat 2)] "a"
              (NExpr [TStr "a"; TFloat 3; TStr "+"]) (VFloat 5) _ _);
      reflexivity.
  - refine (Href [("a", NFloat 2)] [("a", VFloat 2)] "a" 2%float [] _ _ _ _);
      try reflexivity. discriminate.
  - refine (Hlater [("a", NFloat 2)] [("c", NFloat 3)] [("a", VFloat 2)]
              "b" "c" [TFloat 1] [TStr "+"] [1%float] _ _ _ _ _);
      try reflexivity; [discriminate|].
    simpl. intros [H|[]]. discriminate.
Defined.

(** ** Dictionary literals *)

Lemma eval_value_dict (env : Py.dict value) (items : list (string * node)) :
  eval_value env (NDict items) =
  do d <- for_each (eval_entry env) items [] ; Ok (VDict d).
Proof. reflexivity. Qed.

Lemma eval_entries_fresh (env : Py.dict value) (items : list (string * node))
  (acc d : Py.dict value) :
  List.NoDup (Py.keys acc ++ map fst items) ->
  for_each (eval_entry env) items acc = Ok d <->
  exists d', d = acc ++ d' /\ Forall2 (resolves env) items d'.
Proof.
  revert acc d. induction items as [|[k n] items IH]; intros acc d Hnd.
  - simpl. split.
    + intros [= <-]. exists []. split; [now rewrite app_nil_r | constructor].
    + intros (d' & -> & Hall). inversion Hall. now rewrite app_nil_r.
  - cbn [for_each eval_entry].
    assert (Hfresh : ~ In k (Py.keys acc)).
    { simpl in Hnd. apply NoDup_remove_2 in Hnd.
      intros Hin. apply Hnd, in_or_app. now left. }
    split.
    + intros Hrun. destruct (eval_value env n) as [v|e] eqn:Hv; [|discriminate].
      cbn [bind] in Hrun. rewrite dict_setitem_fresh in Hrun by exact Hfresh.
      apply IH in Hrun as (d' & -> & Hall).
      * exists ((k, v) :: d'). rewrite <- app_assoc. split; [reflexivity|].
        constructor; [split; [reflexivity | exact Hv] | exact Hall].
      * unfold Py.keys in *. rewrite map_app, <- app_assoc. exact Hnd.
    + intros (d' & -> & Hall).
      inversion Hall as [|? [k' v] ? d'' [Hk Hv] Hall']; subst.
      simpl in Hk, Hv. subst k'. rewrite Hv. cbn [bind].
      rewrite dict_setitem_fresh by exact Hfresh.
      apply IH.
      * unfold Py.keys in *. rewrite map_app, <- app_assoc. exact Hnd.
      * exists d''. now rewrite <- app_assoc.
Qed.

Lemma eval_entries_prefix (env : Py.dict value) (items : list (string * node))
  (acc : Py.dict value) :
  Forall (fun entry => exists v, eval_value env (snd entry) = Ok v) items ->
  exists d, for_each (eval_entry env) items acc = Ok d.
Proof.
  intros Hall. revert acc.
  induction Hall as [|[k n] items [v Hv] _ IH]; intros acc; simpl.
  - eauto.
  - simpl in Hv. rewrite Hv. cbn [bind]. apply IH.
Qed.

(** C8: every entry of a dictionary literal is evaluated against the
    environment that was in force when the evaluation of the dictionary
    began: the dictionary resolves exactly when each entry's value resolves
    in that environment, and it is bound to these values in the order of the
    entries; an expression in an entry that refers to a name the environment
    does not bind fails with the unknown-constant error, even when a sibling
    entry before or after it has that name as its key. *)
Theorem dictionary_entries_share_env :
  (forall env items r,
     List.NoDup (map fst items) ->
     eval_value env (NDict items) = Ok r <->
     exists d, r = VDict d /\ Forall2 (resolves env) items d)
  /\ (forall env before after k ref pre post stack,
        Forall (fun entry => exists v, eval_value env (snd entry) = Ok v) before ->
        for_each (eval_expr_step env) pre [] = Ok stack ->
        is_NAME ref = true -> ref <> "min" ->
        Py.dict_get env ref = None ->
        eval_value env
          (NDict (before ++ (k, NExpr (pre ++ TStr ref :: post)) :: after))
        = Raise (UnknownConstantError ref)).
Proof.
  split.
  - intros env items r Hnd. rewrite eval_value_dict.
    split.
    + intros Hrun.
      destruct (for_each (eval_entry env) items []) as [d|e] eqn:E;
        [|discriminate].
      injection Hrun as <-. exists d. split; [reflexivity|].
      apply eval_entries_fresh in E as (d' & -> & Hall); assumption.
    + intros (d & -> & Hall).
      assert (E : for_each (eval_entry env) items [] = Ok d)
        by (apply eval_entries_fresh; [exact Hnd | eauto]).
      now rewrite E.
  - intros env before after k ref pre post stack Hbefore Hpre Hname Hmin Hget.
    rewrite eval_value_dict, for_each_app.
    destruct (eval_entries_prefix env before [] Hbefore) as [d ->].
    cbn [bind for_each eval_entry eval_value].
    unfold eval_expr. rewrite for_each_app, Hpre. cbn [bind for_each].
    rewrite step_reference by now apply name_not_operator.
    now rewrite Hget.
Qed.

Lemma dictionary_entries_share_env_witness :
  (eval_value [("a", VFloat 1)]
     (NDict [("x", NFloat 2); ("y", NExpr [TStr "a"; TFloat 1; TStr "+"])])
   = Ok (VDict [("x", VFloat 2); ("y", VFloat 2)]))
  /\ eval_value [("a", VFloat 1)]
       (NDict ([("x", NFloat 2)]
               ++ ("y", NExpr ([TFloat 1] ++ TStr "x" :: [TStr "+"]))
               :: [("z", NFloat 3)]))
     = Raise (UnknownConstantError "x")
  /\ eval_value [("a", VFloat 1)]
       (NDict ([] ++ ("y", NExpr ([] ++ TStr "z" :: [])) :: [("z", NFloat 3)]))
     = Raise (UnknownConstantError "z").
Proof.
  destruct dictionary_entries_share_env as [Hall Hsibling].
  split; [|split].
  - apply Hall.
    + simpl. repeat constructor; simpl; intuition discriminate.
    + eexists. split; [reflexivity|].
      repeat constructor.
  - refine (Hsibling [("a", VFloat 1)] [("x", NFloat 2)] [("z", NFloat 3)]
              "y" "x" [TFloat 1] [TStr "+"] [1%float] _ _ _ _ _);
      try reflexivity; [|discriminate].
    repeat constructor. simpl. eauto.
  - refine (Hsibling [("a", VFloat 1)] [] [("z", NFloat 3)]
              "y" "z" [] [] [] _ _ _ _ _);
      try reflexivity; [constructor | discriminate].
Defined.

(** ** Terminals *)

Lemma digit_is_digit (c : ascii) :
  Py.digit c = if is_digit c then Some (N_of_ascii c - 48)%N else None.
Proof. reflexivity. Qed.

Lemma read_digits_spec (s : string) (acc : N) (count : nat) :
  exists m, Py.read_digits s acc count
            = (m, count + leading_digits s, after_digits s).
Proof.
  revert acc count. induction s as [|c s IH]; intros acc count; simpl.
  - exists acc. now rewrite Nat.add_0_r.
  - rewrite digit_is_digit. destruct (is_digit c).
    + destruct (IH (10 * acc + (N_of_ascii c - 48))%N (S count)) as [m ->].
      exists m. now rewrite Nat.add_succ_r.
    + exists acc. now rewrite Nat.add_0_r.
Qed.

Lemma digits_then_spec (k : string -> bool) (s : string) (seen : bool) :
  digits_then k s seen =
  (seen || (0 <? leading_digits s)%nat) && k (after_digits s).
Proof.
  revert seen. induction s as [|c s IH]; intros seen; simpl.
  - now rewrite orb_false_r.
  - destruct (is_digit c).
    + rewrite IH. simpl. now rewrite orb_true_r.
    + now rewrite orb_false_r.
Qed.

(** [float] accepts every lexeme of NUMBER. *)
Lemma float_NUMBER (tok : string) :
  is_NUMBER tok = true -> exists x, Py.float tok = Ok x.
Proof.
  unfold is_NUMBER, Py.float. rewrite digits_then_spec. simpl.
  destruct (read_digits_spec tok 0 0) as [m ->]. simpl.
  intros H. apply andb_true_iff in H as [Hlead Hrest].
  apply Nat.ltb_lt in Hlead.
  destruct (leading_digits tok) as [|n]; [lia|].
  destruct (after_digits tok) as [|c frac]; [eauto|].
  apply andb_true_iff in Hrest as [Hpoint Hfrac]. rewrite Hpoint.
  rewrite digits_then_spec in Hfrac. simpl in Hfrac.
  apply andb_true_iff in Hfrac as [Hlead' Hend].
  apply Nat.ltb_lt in Hlead'. apply String.eqb_eq in Hend.
  destruct (read_digits_spec frac m 0) as [m' ->]. simpl. rewrite Hend.
  destruct (leading_digits frac) as [|k]; [lia | eauto].
Qed.

(** ** [BuildAST]: duplicate keys *)

Lemma has_dup_NoDup (ks : list string) : has_dup ks = false <-> List.NoDup ks.
Proof.
  induction ks as [|k ks IH]; simpl.
  - split; [constructor | reflexivity].
  - rewrite orb_false_iff, IH. split.
    + intros [Hk Hnd]. constructor; [|exact Hnd].
      intros Hin. apply not_true_iff_false in Hk. apply Hk.
      apply existsb_exists. exists k. split; [exact Hin | apply String.eqb_refl].
    + intros Hnd. inversion Hnd as [|? ? Hk Hnd']; subst. split; [|exact Hnd'].
      apply not_true_iff_false. intros Hex.
      apply existsb_exists in Hex as (k' & Hin & Heq).
      apply String.eqb_eq in Heq. now subst k'.
Qed.

Lemma NoDup_snoc {A : Type} (l : list A) (x : A) :
  List.NoDup l -> ~ In x l -> List.NoDup (l ++ [x]).
Proof.
  induction l as [|y l IH]; simpl; intros Hnd Hx.
  - constructor; [tauto | constructor].
  - inversion Hnd as [|? ? Hy Hnd']; subst. constructor.
    + rewrite in_app_iff. simpl. intuition congruence.
    + apply IH; tauto.
Qed.

(** The loop of [dictionary], from any dictionary built so far. *)
Lemma dictionary_loop (items : list (string * node)) (d : Py.dict node) :
  List.NoDup (Py.keys d) ->
  (List.NoDup (Py.keys d ++ map fst items)
   /\ for_each BuildAST.dictionary_step items d = Ok (d ++ items))
  \/ (~ List.NoDup (Py.keys d ++ map fst items)
      /\ exists key, In key (map fst items)
         /\ for_each BuildAST.dictionary_step items d = Raise (DuplicateKeyError key)).
Proof.
  revert d. induction items as [|[key v] items IH]; intros d Hnd.
  - left. simpl. now rewrite !app_nil_r.
  - cbn [for_each BuildAST.dictionary_step].
    destruct (Py.dict_in key d) eqn:Hin.
    + right. apply dict_in_keys in Hin. split.
      * intros Hall. simpl in Hall. apply NoDup_remove_2 in Hall.
        apply Hall, in_or_app. now left.
      * exists key. split; [now left | reflexivity].
    + assert (Hfresh : ~ In key (Py.keys d)).
      { intros H. apply dict_in_keys in H. congruence. }
      cbn [bind]. rewrite dict_setitem_fresh by exact Hfresh.
      assert (Hkeys : Py.keys (d ++ [(key, v)]) ++ map fst items
                      = Py.keys d ++ map fst ((key, v) :: items)).
      { unfold Py.keys. rewrite map_app, <- app_assoc. reflexivity. }
      assert (Hnd' : List.NoDup (Py.keys (d ++ [(key, v)]))).
      { unfold Py.keys in *. rewrite map_app. simpl.
        apply NoDup_snoc; assumption. }
      destruct (IH (d ++ [(key, v)]) Hnd') as [[Hall Hrun]|[Hdup (k' & Hk' & Hrun)]].
      * left. rewrite <- Hkeys, Hrun, <- app_assoc. split; [exact Hall | reflexivity].
      * right. rewrite <- Hkeys. split; [exact Hdup|].
        exists k'. split; [now right | exact Hrun].
Qed.

Lemma dictionary_spec (items : list (string * node)) :
  (has_dup (map fst items) = false /\ BuildAST.dictionary items = Ok (NDict items))
  \/ (has_dup (map fst items) = true
      /\ exists key, BuildAST.dictionary items = Raise (DuplicateKeyError key)).
Proof.
  unfold BuildAST.dictionary.
  destruct (dictionary_loop items []) as [[Hnd ->]|[Hdup (key & _ & ->)]];
    [constructor | |]; simpl in *.
  - left. split; [now apply has_dup_NoDup | reflexivity].
  - right. split; [|eauto].
    apply not_false_iff_true. intros H. now apply has_dup_NoDup in H.
Qed.

Lemma transform_items_valid (items : list expr_item) :
  forallb valid_item items = true ->
  exists ts, BuildAST.transform_children BuildAST.transform_item items = Ok ts.
Proof.
  induction items as [|i items IH]; simpl; [eauto|].
  intros H. apply andb_true_iff in H as [Hi Hrest].
  destruct (IH Hrest) as [ts ->].
  destruct i; simpl; eauto.
  unfold BuildAST.expr_number.
  destruct (float_NUMBER tok Hi) as [x ->]. simpl. eauto.
Qed.

Lemma transform_named_children (entries : list (string * value_tree)) :
  Forall (fun entry => valid_value (snd entry) = true ->
                       transform_outcome repeats_key BuildAST.transform_value
                                         (snd entry)) entries ->
  forallb (fun '(name_token, v) => is_NAME name_token && valid_value v) entries = true ->
  (existsb (fun '(_, v) => repeats_key v) entries = false
   /\ exists items, BuildAST.transform_children transform_named entries = Ok items
                    /\ map fst items = map fst entries)
  \/ (existsb (fun '(_, v) => repeats_key v) entries = true
      /\ exists key, BuildAST.transform_children transform_named entries
                     = Raise (DuplicateKeyError key)).
Proof.
  induction 1 as [|[k v] entries Hv _ IH]; simpl; intros Hvalid.
  - left. split; [reflexivity|]. exists []. split; reflexivity.
  - apply andb_true_iff in Hvalid as [Hkv Hrest].
    apply andb_true_iff in Hkv as [_ Hvv].
    unfold transform_outcome in Hv. simpl in Hv.
    destruct (Hv Hvv) as [[-> [n ->]]|[-> [key ->]]]; simpl;
      [|right; split; [reflexivity | eauto]].
    destruct (IH Hrest) as [[-> (items & -> & Hkeys)]|[-> [key ->]]]; simpl.
    + left. split; [reflexivity|]. exists ((k, n) :: items).
      split; [reflexivity | simpl; now rewrite Hkeys].
    + right. split; [reflexivity | eauto].
Qed.

Lemma transform_value_spec (t : value_tree) :
  valid_value t = true ->
  transform_outcome repeats_key BuildAST.transform_value t.
Proof.
  induction t as [tok|entries IH|items] using value_tree_induction;
    intros Hvalid; unfold transform_outcome.
  - left. split; [reflexivity|]. simpl in *. unfold BuildAST.number.
    destruct (float_NUMBER tok Hvalid) as [x ->]. simpl. eauto.
  - cbn [BuildAST.transform_value repeats_key]. cbn [valid_value] in Hvalid.
    change (fun '(name_token, v) =>
              do v' <- BuildAST.transform_value v ;
              Ok (BuildAST.dict_entry name_token v'))
      with transform_named.
    destruct (transform_named_children entries IH Hvalid)
      as [[-> (its & -> & Hkeys)]|[-> [key ->]]]; cbn [bind orb].
    + rewrite <- Hkeys.
      destruct (dictionary_spec its) as [[-> ->]|[-> [key ->]]]; eauto.
    + right. eauto.
  - left. split; [reflexivity|]. cbn [BuildAST.transform_value].
    destruct items as [|i items]; [discriminate|].
    destruct (transform_items_valid (i :: items) Hvalid) as [ts ->].
    simpl. eauto.
Qed.

Lemma transform_spec (tree : start) :
  valid_start tree = true ->
  transform_outcome repeats_key_start BuildAST.transform tree.
Proof.
  intros Hvalid. unfold transform_outcome, BuildAST.transform, repeats_key_start.
  change (fun '(name_token, v) =>
            do v' <- BuildAST.transform_value v ;
            Ok (BuildAST.const_decl name_token v'))
    with transform_named.
  destruct (transform_named_children tree) as [[-> (ast & -> & _)]|[-> [key ->]]];
    eauto.
  apply Forall_forall. intros entry _. apply transform_value_spec.
Qed.

(** C4: on a tree the parser can produce, AST construction fails exactly
    when some dictionary literal repeats one of its own keys, and it then
    fails with the duplicate-key error; so it does on
    [d: begin k := 1; k := 2; end;]. The names of the top-level
    declarations are not looked at: a declaration of a name that is already
    bound is evaluated like any other and its value replaces the earlier
    one, as in [a: 1; a: 2;]. *)
Theorem duplicate_key_detection :
  (forall tree,
     valid_start tree = true ->
     (repeats_key_start tree = false
      /\ exists ast, BuildAST.transform tree = Ok ast)
     \/ (repeats_key_start tree = true
         /\ exists key, BuildAST.transform tree = Raise (DuplicateKeyError key)))
  /\ BuildAST.transform
       [("d", T_dictionary [("k", T_number "1"); ("k", T_number "2")])]
     = Raise (DuplicateKeyError "k")
  /\ (forall ast env name n v,
        eval_config ast = Ok env ->
        eval_value env n = Ok v ->
        eval_config (ast ++ [(name, n)]) = Ok (Py.dict_setitem env name v)
        /\ Py.dict_get (Py.dict_setitem env name v) name = Some v)
  /\ translate [("a", T_number "1"); ("a", T_number "2")] = Ok [("a", VFloat 2)].
Proof.
  split; [exact transform_spec|].
  split; [reflexivity|].
  split; [|reflexivity].
  intros ast env name n v Hrun Hv.
  rewrite eval_config_snoc, Hrun. cbn [bind]. rewrite Hv.
  split; [reflexivity | apply dict_get_setitem_eq].
Qed.

Lemma duplicate_key_detection_witness :
  ((repeats_key_start
      [("a", T_number "1");
       ("d", T_dictionary [("k", T_number "1");
                           ("e", T_dictionary [("k", T_number "2")])]);
       ("a", T_expr [T_expr_name "a"])] = false
    /\ exists ast,
       BuildAST.transform
         [("a", T_number "1");
          ("d", T_dictionary [("k", T_number "1");
                              ("e", T_dictionary [("k", T_number "2")])]);
          ("a", T_expr [T_expr_name "a"])] = Ok ast)
   \/ (repeats_key_start
         [("a", T_number "1");
          ("d", T_dictionary [("k", T_number "1");
                              ("e", T_dictionary [("k", T_number "2")])]);
          ("a", T_expr [T_expr_name "a"])] = true
       /\ exists key,
          BuildAST.transform
            [("a", T_number "1");
             ("d", T_dictionary [("k", T_number "1");
                                 ("e", T_dictionary [("k", T_number "2")])]);
             ("a", T_expr [T_expr_name "a"])] = Raise (DuplicateKeyError key)))
  /\ eval_config ([("a", NFloat 1)] ++ [("a", NFloat 2)])
     = Ok (Py.dict_setitem [("a", VFloat 1)] "a" (VFloat 2)).
Proof.
  destruct duplicate_key_detection as (Hexact & _ & Hover & _).
  split.
  - apply Hexact. reflexivity.
  - refine (proj1 (Hover [("a", NFloat 1)] [("a", VFloat 1)] "a" (NFloat 2)
                     (VFloat 2) _ _)); reflexivity.
Defined.

(** ** Configurations of numeric literals *)

Lemma transform_cons (name_token : string) (v : value_tree) (rest : start) :
  BuildAST.transform ((name_token, v) :: rest) =
  do v' <- BuildAST.transform_value v ;
  do rest' <- BuildAST.transform rest ;
  Ok ((name_token, v') :: rest').
Proof.
  unfold BuildAST.transform. simpl.
  now destruct (BuildAST.transform_value v).
Qed.

Lemma numeric_transform (decls : list (string * string)) :
  Forall (fun decl => is_NUMBER (snd decl) = true) decls ->
  exists ast, BuildAST.transform (numeric_source decls) = Ok ast
              /\ Forall2 literal_node decls ast.
Proof.
  induction 1 as [|[name tok] decls Htok _ (ast & IH & Hall)].
  - exists []. split; [reflexivity | constructor].
  - change (numeric_source ((name, tok) :: decls))
      with ((name, T_number tok) :: numeric_source decls).
    rewrite transform_cons, IH. cbn [BuildAST.transform_value].
    unfold BuildAST.number. simpl in Htok.
    destruct (float_NUMBER tok Htok) as [x Hx]. rewrite Hx. cbn [bind].
    exists ((name, NFloat x) :: ast). split; [reflexivity|].
    constructor; [|exact Hall]. split; [reflexivity | eauto].
Qed.

Lemma numeric_declare (decls : list (string * string)) (ast : list (string * node))
  (env : Py.dict value) :
  Forall2 literal_node decls ast ->
  List.NoDup (Py.keys env ++ map fst decls) ->
  exists bound, for_each declare ast env = Ok (env ++ bound)
                /\ Forall2 literal_value decls bound.
Proof.
  intros Hall. revert env.
  induction Hall as [|[name tok] [name' n] decls ast [Hname (x & Hx & Hn)] _ IH];
    intros env Hnd.
  - exists []. split; [simpl; now rewrite app_nil_r | constructor].
  - simpl in Hname, Hx, Hn. subst name' n. cbn [for_each declare eval_value bind].
    assert (Hfresh : ~ In name (Py.keys env)).
    { simpl in Hnd. apply NoDup_remove_2 in Hnd.
      intros Hin. apply Hnd, in_or_app. now left. }
    rewrite dict_setitem_fresh by exact Hfresh.
    destruct (IH (env ++ [(name, VFloat x)])) as (bound & Hrun & Hbound).
    { unfold Py.keys in *. rewrite map_app, <- app_assoc. exact Hnd. }
    exists ((name, VFloat x) :: bound). rewrite Hrun, <- app_assoc.
    split; [reflexivity|].
    constructor; [|exact Hbound]. split; [reflexivity | eauto].
Qed.

(** C2 (as amended): for every valid source whose declarations are all
    numeric literals and whose declared names are pairwise distinct, the
    resolved configuration has exactly as many entries as the source has
    declarations, in the order of the declarations, and each name is bound
    to the float value of its literal. *)
Theorem numeric_config (decls : list (string * string)) :
  Forall (fun decl => is_NUMBER (snd decl) = true) decls ->
  List.NoDup (map fst decls) ->
  exists result,
    translate (numeric_source decls) = Ok result
    /\ length result = length decls
    /\ Forall2 literal_value decls result.
Proof.
  intros Hvalid Hnd. unfold translate.
  destruct (numeric_transform decls Hvalid) as (ast & -> & Hast). cbn [bind].
  rewrite eval_config_declare.
  destruct (numeric_declare decls ast [] Hast Hnd) as (result & -> & Hall).
  exists result. split; [reflexivity|]. split; [|exact Hall].
  symmetry. eapply Forall2_length, Hall.
Qed.

Lemma numeric_config_witness :
  exists result,
    translate (numeric_source [("a", "2"); ("b", "0.5")]) = Ok result
    /\ length result = 2
    /\ Forall2 literal_value [("a", "2"); ("b", "0.5")] result.
Proof.
  apply (numeric_config [("a", "2"); ("b", "0.5")]).
  - repeat constructor.
  - repeat constructor; simpl; intuition discriminate.
Defined.

(** Two declarations of one name leave one entry, bound to the later
    literal. *)
Lemma numeric_config_counterexample :
  valid_start (numeric_source [("a", "1"); ("a", "2")]) = true
  /\ translate (numeric_source [("a", "1"); ("a", "2")]) = Ok [("a", VFloat 2)]
  /\ length [("a", VFloat 2)] <> length (numeric_source [("a", "1"); ("a", "2")])
  /\ Py.float "1" = Ok 1%float
  /\ Py.dict_get [("a", VFloat 2)] "a" <> Some (VFloat 1).
Proof.
  repeat split; try reflexivity.
  - simpl. lia.
  - simpl. discriminate.
Qed.

(** ** The emitter *)

Lemma length_blocks (ts : list ET.tree) (off : nat) :
  Forall (fun t => forall off, length (layout t off) = size t) ts ->
  length (blocks size layout ts off) = list_sum (map size ts).
Proof.
  intros Hall. revert off.
  induction Hall as [|t ts Ht _ IH]; intros off; simpl; [reflexivity|].
  now rewrite length_app, Ht, IH.
Qed.

Lemma length_layout (t : ET.tree) (off : nat) : length (layout t off) = size t.
Proof.
  revert off. induction t as [tag attrib text kids IH] using tree_induction.
  intros off. simpl. now rewrite length_blocks.
Qed.

(** *** Reading a block back *)

Lemma read_blocks (fuel : nat) (kids : list ET.tree) (pre post : ET.store) :
  Forall (fun t => forall pre post,
            ET.read fuel (pre ++ layout t (length pre) ++ post) (length pre)
            = Some t) kids ->
  mapM (ET.read fuel (pre ++ blocks size layout kids (length pre) ++ post))
       (block_ids size kids (length pre))
  = Some kids.
Proof.
  intros Hall. revert pre.
  induction Hall as [|t kids Ht _ IH]; intros pre; [reflexivity|].
  cbn [block_ids blocks mapM].
  rewrite <- (app_assoc (layout t (length pre))).
  rewrite Ht. simpl.
  specialize (IH (pre ++ layout t (length pre))).
  rewrite length_app, length_layout, <- !app_assoc in IH.
  now rewrite IH.
Qed.

Lemma read_more_fuel (st : ET.store) (fuel : nat) (elem : nat) (t : ET.tree) :
  ET.read fuel st elem = Some t ->
  forall fuel', fuel <= fuel' -> ET.read fuel' st elem = Some t.
Proof.
  revert elem t. induction fuel as [|fuel IH]; intros elem t Hread fuel' Hle;
    [discriminate|].
  destruct fuel' as [|fuel']; [lia|].
  simpl in *. destruct (st !! elem) as [e|]; [|discriminate]. simpl in *.
  destruct (mapM (ET.read fuel st) (ET.children e)) as [kids|] eqn:Hkids;
    [|discriminate].
  simpl in Hread. injection Hread as <-.
  assert (Hkids' : mapM (ET.read fuel' st) (ET.children e) = Some kids).
  { apply mapM_Some. apply mapM_Some in Hkids.
    eapply Forall2_impl; [exact Hkids|].
    intros c k Hc. simpl in Hc. apply (IH _ _ Hc). lia. }
  now rewrite Hkids'.
Qed.

Lemma size_in_kids (k : ET.tree) (kids : list ET.tree) :
  In k kids -> size k <= list_sum (map size kids).
Proof.
  induction kids as [|k' kids IH]; simpl; [tauto|].
  intros [->|Hin]; [lia | specialize (IH Hin); lia].
Qed.

Lemma read_layout (t : ET.tree) :
  forall pre post,
    ET.read (size t) (pre ++ layout t (length pre) ++ post) (length pre) = Some t.
Proof.
  induction t as [tag attrib text kids IH] using tree_induction.
  intros pre post. cbn [size layout ET.read app].
  rewrite list_lookup_middle by reflexivity. simpl.
  assert (Hkids :
    mapM (ET.read (list_sum (map size kids))
            (pre ++ ET.mk_element tag attrib text
                      (block_ids size kids (S (length pre)))
                    :: blocks size layout kids (S (length pre)) ++ post))
         (block_ids size kids (S (length pre)))
    = Some kids).
  { pose proof (read_blocks (list_sum (map size kids)) kids
                  (pre ++ [ET.mk_element tag attrib text
                             (block_ids size kids (S (length pre)))]) post) as H.
    rewrite length_app, Nat.add_1_r, <- !app_assoc in H. apply H.
    apply List.Forall_forall. intros k Hin pre' post'.
    eapply read_more_fuel; [|apply size_in_kids, Hin].
    apply (proj1 (List.Forall_forall _ _) IH k Hin). }
  now rewrite Hkids.
Qed.

(** *** What [add_value] writes *)

Lemma append_children_nil (e : ET.element) : append_children [] e = e.
Proof. destruct e. unfold append_children. simpl. now rewrite app_nil_r. Qed.

Lemma append_children_cons (c : nat) (ids : list nat) (e : ET.element) :
  append_children ids (ET.append_child c e) = append_children (c :: ids) e.
Proof. unfold append_children, ET.append_child. simpl. now rewrite <- app_assoc. Qed.

Lemma alter_middle {A : Type} (f : A -> A) (pre post : list A) (x : A) (i : nat) :
  i = length pre -> alter f i (pre ++ x :: post) = pre ++ f x :: post.
Proof.
  intros ->. pose proof (alter_app_r f pre (x :: post) 0) as H.
  now rewrite Nat.add_0_r in H.
Qed.

Lemma SubElement_spec (parent : nat) (tag : string) (extra : Py.dict string)
  (st : ET.store) :
  parent < length st ->
  ET.SubElement parent tag extra st =
  (length st,
   alter (ET.append_child (length st)) parent st
   ++ [ET.mk_element tag extra None []]).
Proof. intros H. unfold ET.SubElement. now rewrite alter_app_l. Qed.

Section AddValue.

Variable str : float -> string.

(** The loop over the entries, with [elem] the element that receives
    them: it sits after [pre], and [done] holds the blocks written since. *)
Lemma add_entries (d : Py.dict value) :
  Forall (fun entry => writes_block str (snd entry)) d ->
  forall (elem : nat) (pre : ET.store) (e : ET.element) (done : ET.store),
    elem = length pre ->
    fold_left (fun st '(k, v) => add_value str elem k v st) d
              (pre ++ e :: done) =
    pre
    ++ append_children
         (block_ids size (map (fun '(k, v) => emit_value str k v) d)
                    (length pre + 1 + length done)) e
    :: done
    ++ blocks size layout (map (fun '(k, v) => emit_value str k v) d)
              (length pre + 1 + length done).
Proof.
  induction 1 as [|[k v] d Hv _ IH]; intros elem pre e done Helem.
  - simpl. now rewrite append_children_nil, app_nil_r.
  - cbn [fold_left map block_ids blocks]. simpl in Hv.
    assert (Hlen : length (pre ++ e :: done) = length pre + 1 + length done)
      by (rewrite length_app; simpl; lia).
    rewrite Hv by lia. rewrite Hlen.
    rewrite alter_middle by exact Helem.
    rewrite <- app_assoc. cbn [app].
    rewrite IH by exact Helem.
    rewrite append_children_cons, length_app, length_layout.
    rewrite <- app_assoc, Nat.add_assoc. reflexivity.
Qed.

Lemma add_value_writes_block (v : value) : writes_block str v.
Proof.
  induction v as [x|d IH] using value_induction;
    intros parent name st Hparent.
  - cbn [add_value]. rewrite SubElement_spec by exact Hparent.
    unfold ET.set_text.
    rewrite alter_middle by now rewrite length_alter.
    reflexivity.
  - cbn [add_value]. rewrite SubElement_spec by exact Hparent.
    rewrite (add_entries d IH (length st)
               (alter (ET.append_child (length st)) parent st)
               (ET.mk_element "dict" [("name", name)] None []) [])
      by now rewrite length_alter.
    cbn [emit_value layout length app]. unfold append_children. cbn [app].
    rewrite length_alter, Nat.add_0_r, Nat.add_1_r.
    reflexivity.
Qed.

(** The store [build_xml] ends with is the block of the whole tree. *)
Lemma build_xml_layout (data : Py.dict value) :
  build_xml str data = (0, layout (emit str data) 0).
Proof.
  unfold build_xml, ET.Element. cbn [length app]. f_equal.
  rewrite (add_entries data) with (pre := []) (e := ET.mk_element "config" [] None [])
                                (done := []).
  - reflexivity.
  - apply List.Forall_forall. intros entry _. apply add_value_writes_block.
  - reflexivity.
Qed.

End AddValue.

(** C9: the element [build_xml] returns is the root of the tree the
    specification describes: a [config] element whose children are, in the
    insertion order of the mapping, a [number] element with the [name]
    attribute and the text of the float for every number, and a [dict]
    element with the [name] attribute and the recursively emitted entries
    for every dictionary. *)
Theorem build_xml_emits (str : float -> string) (data : Py.dict value) :
  let '(root, st) := build_xml str data in
  ET.read (length st) st root = Some (emit str data).
Proof.
  rewrite build_xml_layout, length_layout.
  pose proof (read_layout (emit str data) [] []) as H.
  simpl length in H. rewrite app_nil_l, app_nil_r in H. exact H.
Qed.

(** * Further properties of the evaluator *)

(** ** Stack depth *)

Lemma step_depth (env : Py.dict value) (stack stack' : list float) (t : token) :
  eval_expr_step env stack t = Ok stack' ->
  if is_operator_token t
  then S (length stack') = length stack
  else length stack' = S (length stack).
Proof.
  destruct t as [x|s].
  - simpl. intros [= <-]. rewrite length_app. simpl. lia.
  - cbn [is_operator_token]. token_kind s.
    1-4: match goal with
         | |- eval_expr_step _ _ (TStr ?sym) = _ -> _ =>
             change (in_set sym operators) with true; cbv iota;
             first [ change sym with (symbol Plus)
                   | change sym with (symbol Minus)
                   | change sym with (symbol Times)
                   | change sym with (symbol Divide) ]
         end;
      (stack_shape stack;
       [ now rewrite step_operator_short by (simpl; lia)
       | now rewrite step_operator_short by (simpl; lia)
       | rewrite step_operator;
         match goal with
         | |- context [apply _ ?op ?x ?y] => destruct (apply Py.truediv op x y)
         end; [|discriminate];
         cbn [bind]; intros [= <-]; rewrite !length_app; simpl; lia ]).
    + change (in_set "min" operators) with true. cbv iota.
      stack_shape stack.
      * now rewrite step_min_short by (simpl; lia).
      * now rewrite step_min_short by (simpl; lia).
      * rewrite step_min. intros [= <-]. rewrite !length_app. simpl. lia.
    + rewrite Hin, step_reference by exact Hin.
      destruct (Py.dict_get env s) as [[x|d]|]; try discriminate.
      intros [= <-]. rewrite length_app. simpl. lia.
Qed.

Lemma run_depth (env : Py.dict value) (tokens : list token)
  (stack stack' : list float) :
  for_each (eval_expr_step env) tokens stack = Ok stack' ->
  length stack' + operator_count tokens = length stack + operand_count tokens.
Proof.
  unfold operator_count, operand_count. revert stack.
  induction tokens as [|t tokens IH]; intros stack; cbn [for_each List.filter].
  - intros [= <-]. simpl. lia.
  - destruct (eval_expr_step env stack t) as [stack1|e] eqn:Hstep; [|discriminate].
    cbn [bind]. intros Hrun. apply IH in Hrun. apply step_depth in Hstep.
    destruct (is_operator_token t); simpl in *; lia.
Qed.

(** X1: an expression that evaluates has exactly one more value-pushing
    token (literal or reference) than value-consuming ones (operators and
    [min]). *)
Theorem evaluated_expression_is_balanced (env : Py.dict value)
  (tokens : list token) (x : float) :
  eval_expr env tokens = Ok x ->
  operand_count tokens = S (operator_count tokens).
Proof.
  rewrite eval_expr_final.
  destruct (for_each (eval_expr_step env) tokens []) as [[|v [|w stack]]|e] eqn:Hrun;
    try discriminate.
  intros _. apply run_depth in Hrun. simpl in Hrun. lia.
Qed.

Lemma evaluated_expression_is_balanced_witness :
  operand_count [TFloat 10; TFloat 2; TFloat 3; TStr "-"; TStr "min"]
  = S (operator_count [TFloat 10; TFloat 2; TFloat 3; TStr "-"; TStr "min"]).
Proof.
  apply (evaluated_expression_is_balanced []
           [TFloat 10; TFloat 2; TFloat 3; TStr "-"; TStr "min"] (-1)%float).
  reflexivity.
Defined.

(** ** Expressions under a stack *)

(** What a token does to a stack it would do on top of any other values. *)
Lemma step_on_top (env : Py.dict value) (base stack stack' : list float) (t : token) :
  eval_expr_step env stack t = Ok stack' ->
  eval_expr_step env (base ++ stack) t = Ok (base ++ stack').
Proof.
  destruct t as [x|s].
  - simpl. intros [= <-]. now rewrite app_assoc.
  - token_kind s.
    1-4: match goal with
         | |- eval_expr_step _ _ (TStr ?sym) = _ -> _ =>
             first [ change sym with (symbol Plus)
                   | change sym with (symbol Minus)
                   | change sym with (symbol Times)
                   | change sym with (symbol Divide) ]
         end;
      (stack_shape stack;
       [ now rewrite step_operator_short by (simpl; lia)
       | now rewrite step_operator_short by (simpl; lia)
       | rewrite app_assoc, !step_operator;
         match goal with
         | |- context [apply _ ?op ?x ?y] => destruct (apply Py.truediv op x y)
         end; [|discriminate];
         cbn [bind]; intros [= <-]; now rewrite app_assoc ]).
    + stack_shape stack.
      * now rewrite step_min_short by (simpl; lia).
      * now rewrite step_min_short by (simpl; lia).
      * rewrite app_assoc, !step_min. intros [= <-]. now rewrite app_assoc.
    + rewrite !step_reference by exact Hin.
      destruct (Py.dict_get env s) as [[x|d]|]; try discriminate.
      intros [= <-]. now rewrite app_assoc.
Qed.

Lemma run_on_top (env : Py.dict value) (tokens : list token)
  (base stack stack' : list float) :
  for_each (eval_expr_step env) tokens stack = Ok stack' ->
  for_each (eval_expr_step env) tokens (base ++ stack) = Ok (base ++ stack').
Proof.
  revert stack. induction tokens as [|t tokens IH]; intros stack; cbn [for_each].
  - now intros [= <-].
  - destruct (eval_expr_step env stack t) as [stack1|e] eqn:Hstep; [|discriminate].
    cbn [bind]. intros Hrun.
    rewrite (step_on_top _ base _ _ _ Hstep). cbn [bind]. now apply IH.
Qed.

Lemma eval_expr_run (env : Py.dict value) (tokens : list token) (x : float) :
  eval_expr env tokens = Ok x ->
  for_each (eval_expr_step env) tokens [] = Ok [x].
Proof.
  rewrite eval_expr_final.
  destruct (for_each (eval_expr_step env) tokens []) as [[|v [|w stack]]|e];
    try discriminate.
  now intros [= ->].
Qed.

(** X2: postfix expressions compose: two expressions that evaluate to [a]
    and [b], written one after the other and followed by an operator,
    evaluate to what the operator gives for [a] and [b] (for [/], the
    quotient or the division error); followed by [min], to [min(a, b)]. *)
Theorem postfix_composition (env : Py.dict value) (left right : list token)
  (a b : float) :
  eval_expr env left = Ok a ->
  eval_expr env right = Ok b ->
  (forall op,
     eval_expr env (left ++ right ++ [TStr (symbol op)]) = apply Py.truediv op a b)
  /\ eval_expr env (left ++ right ++ [TStr "min"]) = Ok (Py.min a b).
Proof.
  intros Hleft Hright.
  apply eval_expr_run in Hleft. apply eval_expr_run in Hright.
  apply (run_on_top env right [a]) in Hright. simpl in Hright.
  split; [intros op|]; unfold eval_expr;
    rewrite for_each_app, Hleft; cbn [bind];
    rewrite for_each_app, Hright; cbn [bind for_each].
  - pose proof (step_operator env op [] a b) as Hstep. cbn [app] in Hstep.
    rewrite Hstep. destruct (apply Py.truediv op a b); reflexivity.
  - pose proof (step_min env [] a b) as Hstep. cbn [app] in Hstep.
    rewrite Hstep. reflexivity.
Qed.

Lemma postfix_composition_witness :
  eval_expr [("a", VFloat 6)]
    ([TStr "a"; TFloat 1; TStr "+"] ++ [TFloat 2; TFloat 3; TStr "*"]
     ++ [TStr (symbol Minus)])
  = apply Py.truediv Minus 7 6.
Proof.
  refine (proj1 (postfix_composition [("a", VFloat 6)]
                   [TStr "a"; TFloat 1; TStr "+"] [TFloat 2; TFloat 3; TStr "*"]
                   7 6 _ _) Minus); reflexivity.
Defined.

(** ** Exceptions *)













(** ** The first error *)

(** X4: evaluation stops at the first declaration that fails: its
    exception is the outcome of [eval_config] whatever the declarations
    after it are, and the outcome of a failed prefix is the outcome of every
    extension of it. *)
Theorem first_error_stops :
  (forall before after env name n e,
     eval_config before = Ok env ->
     eval_value env n = Raise e ->
     eval_config (before ++ (name, n) :: after) = Raise e)
  /\ (forall before after e,
        eval_config before = Raise e ->
        eval_config (before ++ after) = Raise e).
Proof.
  split.
  - intros before after env name n e Hbefore Hn.
    rewrite eval_config_declare in *.
    rewrite for_each_app, Hbefore. cbn [bind for_each declare].
    now rewrite Hn.
  - intros before after e Hbefore.
    rewrite eval_config_declare in *.
    now rewrite for_each_app, Hbefore.
Qed.

Lemma first_error_stops_witness :
  eval_config ([("a", NFloat 1)] ++ ("b", NExpr [TStr "+"]) :: [("c", NFloat 2)])
  = Raise (ArityError "+")
  /\ eval_config ([("b", NExpr [TStr "+"])] ++ [("c", NFloat 2)])
     = Raise (ArityError "+").
Proof.
  destruct first_error_stops as [Hfirst Hprefix]. split.
  - refine (Hfirst [("a", NFloat 1)] [("c", NFloat 2)] [("a", VFloat 1)]
              "b" (NExpr [TStr "+"]) _ _ _); reflexivity.
  - refine (Hprefix [("b", NExpr [TStr "+"])] [("c", NFloat 2)] _ _).
    reflexivity.
Defined.

(** ** The order of the resolved names *)

Lemma dict_in_in_set {V : Type} (d : Py.dict V) (k : string) :
  Py.dict_in k d = in_set k (Py.keys d).
Proof.
  unfold Py.dict_in, in_set, Py.keys.
  induction d as [|[k0 v0] d IH]; simpl; [reflexivity|].
  rewrite (String.eqb_sym k k0). destruct (String.eqb k0 k); [reflexivity | exact IH].
Qed.

Lemma keys_setitem_order {V : Type} (d : Py.dict V) (k : string) (v : V) :
  Py.keys (Py.dict_setitem d k v) =
  if Py.dict_in k d then Py.keys d else Py.keys d ++ [k].
Proof.
  unfold Py.dict_in, Py.keys.
  induction d as [|[k0 v0] d IH]; simpl; [reflexivity|].
  destruct (String.eqb k0 k); simpl; [reflexivity|].
  rewrite IH. now destruct (Py.dict_get d k).
Qed.

Lemma filter_filter {A : Type} (p q : A -> bool) (l : list A) :
  List.filter p (List.filter q l) = List.filter (fun x => q x && p x) l.
Proof.
  induction l as [|x l IH]; simpl; [reflexivity|].
  destruct (q x); simpl; [destruct (p x); now rewrite IH | exact IH].
Qed.

Lemma declare_keys_order (ast : list (string * node)) (d env : Py.dict value) :
  for_each declare ast d = Ok env ->
  Py.keys env =
  Py.keys d
  ++ List.filter (fun k => negb (in_set k (Py.keys d)))
                 (first_occurrences (map fst ast)).
Proof.
  revert d. induction ast as [|[name n] ast IH]; intros d; cbn [for_each declare].
  - intros [= <-]. simpl. now rewrite app_nil_r.
  - destruct (eval_value d n) as [v|e]; [|discriminate]. cbn [bind].
    intros Hrun. rewrite (IH _ Hrun), keys_setitem_order, dict_in_in_set.
    cbn [map fst first_occurrences List.filter].
    destruct (in_set name (Py.keys d)) eqn:Hin; cbn [negb].
    + f_equal. rewrite filter_filter. apply filter_ext. intros k.
      destruct (String.eqb_spec name k) as [<-|_]; [now rewrite Hin | reflexivity].
    + rewrite <- app_assoc. cbn [app]. do 2 f_equal.
      rewrite filter_filter. apply filter_ext. intros k.
      unfold in_set. rewrite existsb_app. simpl.
      rewrite orb_false_r, negb_orb, (String.eqb_sym k name).
      apply andb_comm.
Qed.

Lemma first_occurrences_NoDup (ks : list string) :
  List.NoDup (first_occurrences ks).
Proof.
  induction ks as [|k ks IH]; simpl; constructor.
  - rewrite filter_In. intros [_ H]. now rewrite String.eqb_refl in H.
  - now apply List.NoDup_filter.
Qed.

Lemma filter_none_seen (ks : list string) :
  List.filter (fun k => negb (in_set k [])) ks = ks.
Proof. induction ks as [|k ks IH]; simpl; [reflexivity | now f_equal]. Qed.

(** X5: the resolved configuration lists every declared name once, at the
    place of its first declaration: its keys are the declared names with
    the repetitions after the first occurrence removed, so it has as many
    entries as there are distinct declared names. *)
Theorem resolved_names_in_first_declaration_order (ast : list (string * node))
  (result : Py.dict value) :
  eval_config ast = Ok result ->
  Py.keys result = first_occurrences (map fst ast)
  /\ List.NoDup (Py.keys result)
  /\ length result = length (first_occurrences (map fst ast)).
Proof.
  rewrite eval_config_declare. intros Hrun.
  assert (Hkeys : Py.keys result = first_occurrences (map fst ast)).
  { rewrite (declare_keys_order _ _ _ Hrun). apply filter_none_seen. }
  split; [exact Hkeys|]. split.
  - rewrite Hkeys. apply first_occurrences_NoDup.
  - rewrite <- Hkeys. unfold Py.keys. now rewrite length_map.
Qed.

Lemma resolved_names_in_first_declaration_order_witness :
  Py.keys [("a", VFloat 3); ("b", VFloat 2)]
  = first_occurrences (map fst [("a", NFloat 1); ("b", NFloat 2); ("a", NFloat 3)])
  /\ List.NoDup (Py.keys [("a", VFloat 3); ("b", VFloat 2)])
  /\ length [("a", VFloat 3); ("b", VFloat 2)]
     = length (first_occurrences
                 (map fst [("a", NFloat 1); ("b", NFloat 2); ("a", NFloat 3)])).
Proof.
  apply (resolved_names_in_first_declaration_order
           [("a", NFloat 1); ("b", NFloat 2); ("a", NFloat 3)]).
  reflexivity.
Defined.

(** ** What an evaluation reads of the environment *)

Lemma step_agrees (env env' : Py.dict value) (stack : list float) (t : token) :
  (forall s, t = TStr s -> Py.dict_get env s = Py.dict_get env' s) ->
  eval_expr_step env stack t = eval_expr_step env' stack t.
Proof.
  intros Hagree. destruct t as [x|s]; [reflexivity|].
  token_kind s; try reflexivity.
  rewrite !step_reference by exact Hin.
  now rewrite (Hagree s eq_refl).
Qed.

Lemma eval_expr_agrees (env env' : Py.dict value) (tokens : list token) :
  (forall k, In k (token_names tokens) -> Py.dict_get env k = Py.dict_get env' k) ->
  eval_expr env tokens = eval_expr env' tokens.
Proof.
  intros Hagree. unfold eval_expr. f_equal.
  generalize (@nil float) as stack.
  induction tokens as [|t tokens IH]; intros stack; cbn [for_each]; [reflexivity|].
  rewrite (step_agrees env env').
  - destruct (eval_expr_step env' stack t); cbn [bind]; [|reflexivity].
    apply IH. intros k Hk. apply Hagree. unfold token_names in *.
    cbn [flat_map]. apply in_or_app. now right.
  - intros s ->. apply Hagree. unfold token_names. cbn [flat_map]. now left.
Qed.

(** X6: the outcome of evaluating a node (value or exception) depends on
    the environment only through the names the node mentions: two
    environments that agree on these names give the same outcome. *)
Theorem outcome_depends_on_mentioned_names (env env' : Py.dict value) (n : node) :
  (forall k, In k (mentioned n) -> Py.dict_get env k = Py.dict_get env' k) ->
  eval_value env n = eval_value env' n.
Proof.
  induction n as [x|items IH|tokens] using node_induction; intros Hagree.
  - reflexivity.
  - rewrite !eval_value_dict. f_equal.
    generalize (@nil (string * value)) as d.
    cbn [mentioned] in Hagree.
    induction IH as [|[k n] items Hn _ IHitems]; intros d; cbn [for_each eval_entry];
      [reflexivity|].
    simpl in Hn. rewrite Hn.
    + destruct (eval_value env' n); cbn [bind]; [|reflexivity].
      apply IHitems. intros k' Hk'. apply Hagree. cbn [flat_map].
      apply in_or_app. now right.
    + intros k' Hk'. apply Hagree. cbn [flat_map]. apply in_or_app. now left.
  - cbn [eval_value]. now rewrite (eval_expr_agrees env env').
Qed.

Lemma outcome_depends_on_mentioned_names_witness :
  eval_value [("a", VFloat 1); ("b", VFloat 2)]
             (NDict [("x", NExpr [TStr "a"; TFloat 1; TStr "+"]); ("y", NFloat 3)])
  = eval_value [("c", VDict []); ("a", VFloat 1)]
               (NDict [("x", NExpr [TStr "a"; TFloat 1; TStr "+"]); ("y", NFloat 3)]).
Proof.
  apply outcome_depends_on_mentioned_names.
  simpl. intros k [<-|[<-|[]]]; reflexivity.
Defined.

Lemma step_extends (env env' : Py.dict value) (stack stack' : list float) (t : token) :
  extends env env' ->
  eval_expr_step env stack t = Ok stack' ->
  eval_expr_step env' stack t = Ok stack'.
Proof.
  intros Hext. destruct t as [x|s]; [exact id|].
  token_kind s; try exact id.
  rewrite !step_reference by exact Hin.
  destruct (Py.dict_get env s) as [[x|d]|] eqn:Hget; try discriminate.
  now rewrite (Hext _ _ Hget).
Qed.

Lemma run_extends (env env' : Py.dict value) (tokens : list token)
  (stack stack' : list float) :
  extends env env' ->
  for_each (eval_expr_step env) tokens stack = Ok stack' ->
  for_each (eval_expr_step env') tokens stack = Ok stack'.
Proof.
  intros Hext. revert stack.
  induction tokens as [|t tokens IH]; intros stack; cbn [for_each]; [exact id|].
  destruct (eval_expr_step env stack t) as [stack1|e] eqn:Hstep; [|discriminate].
  rewrite (step_extends _ _ _ _ _ Hext Hstep). cbn [bind]. apply IH.
Qed.

Lemma eval_expr_extends (env env' : Py.dict value) (tokens : list token) (x : float) :
  extends env env' ->
  eval_expr env tokens = Ok x -> eval_expr env' tokens = Ok x.
Proof.
  intros Hext Heval. apply eval_expr_run in Heval.
  unfold eval_expr. now rewrite (run_extends _ _ _ _ _ Hext Heval).
Qed.

(** X7: a node that resolves keeps resolving to the same value when the
    environment gains bindings: whatever [env'] binds beyond [env] does not
    matter. *)
Theorem resolved_value_survives_new_bindings (env env' : Py.dict value)
  (n : node) (v : value) :
  extends env env' ->
  eval_value env n = Ok v ->
  eval_value env' n = Ok v.
Proof.
  intros Hext. revert v.
  induction n as [x|items IH|tokens] using node_induction; intros v.
  - exact id.
  - rewrite !eval_value_dict.
    assert (Hloop : forall d d',
               for_each (eval_entry env) items d = Ok d' ->
               for_each (eval_entry env') items d = Ok d').
    { induction IH as [|[k n] items Hn _ IHitems]; intros d d';
        cbn [for_each eval_entry]; [exact id|].
      simpl in Hn.
      destruct (eval_value env n) as [v1|e] eqn:Hv; [|discriminate].
      rewrite (Hn _ eq_refl). cbn [bind]. apply IHitems. }
    destruct (for_each (eval_entry env) items []) as [d|e] eqn:Hrun;
      [|discriminate].
    now rewrite (Hloop _ _ Hrun).
  - cbn [eval_value].
    destruct (eval_expr env tokens) as [x|e] eqn:Hx; [|discriminate].
    now rewrite (eval_expr_extends _ _ _ _ Hext Hx).
Qed.

Lemma resolved_value_survives_new_bindings_witness :
  eval_value [("a", VFloat 1); ("b", VFloat 2)]
             (NDict [("x", NExpr [TStr "a"; TFloat 1; TStr "+"])])
  = Ok (VDict [("x", VFloat 2)]).
Proof.
  apply (resolved_value_survives_new_bindings [("a", VFloat 1)]).
  - intros k v. unfold Py.dict_get.
    destruct (String.eqb "a" k); [exact id | discriminate].
  - reflexivity.
Defined.

(** * Further properties of [BuildAST] *)

(** X8: the duplicate-key error names the first key that comes a second
    time: when the entries before an entry have distinct keys and one of
    them has the entry's key, [dictionary] fails with that key, whatever
    follows. *)
Theorem first_repeated_key_is_reported (before after : list (string * node))
  (key : string) (v : node) :
  List.NoDup (map fst before) ->
  In key (map fst before) ->
  BuildAST.dictionary (before ++ (key, v) :: after) = Raise (DuplicateKeyError key).
Proof.
  intros Hnd Hin. unfold BuildAST.dictionary. rewrite for_each_app.
  destruct (dictionary_loop before []) as [[_ ->]|[Hdup _]];
    [constructor | | now destruct Hdup].
  cbn [bind for_each app BuildAST.dictionary_step].
  assert (Hd : Py.dict_in key before = true) by now apply dict_in_keys.
  now rewrite Hd.
Qed.

Lemma first_repeated_key_is_reported_witness :
  BuildAST.dictionary
    ([("a", NFloat 1); ("b", NFloat 2)] ++ ("b", NFloat 3) :: [("a", NFloat 4)])
  = Raise (DuplicateKeyError "b").
Proof.
  apply first_repeated_key_is_reported.
  - simpl. repeat constructor; simpl; intuition discriminate.
  - simpl. tauto.
Defined.

Lemma transform_named_Ok (entries : list (string * value_tree))
  (items : list (string * node)) :
  Forall (fun entry => forall n, BuildAST.transform_value (snd entry) = Ok n ->
                                 unique_keys n = true) entries ->
  BuildAST.transform_children transform_named entries = Ok items ->
  map fst items = map fst entries
  /\ forallb (fun '(_, n) => unique_keys n) items = true.
Proof.
  intros Hall. revert items.
  induction Hall as [|[k v] entries Hv _ IH]; intros items;
    cbn [BuildAST.transform_children transform_named].
  - intros [= <-]. split; reflexivity.
  - simpl in Hv.
    destruct (BuildAST.transform_value v) as [n|e]; [|discriminate]. cbn [bind].
    destruct (BuildAST.transform_children transform_named entries) as [its|e];
      [|discriminate].
    cbn [bind]. intros [= <-]. destruct (IH its eq_refl) as [Hkeys Huniq].
    split; simpl; [now rewrite Hkeys | now rewrite (Hv n eq_refl), Huniq].
Qed.

Lemma transform_value_unique (t : value_tree) (n : node) :
  BuildAST.transform_value t = Ok n -> unique_keys n = true.
Proof.
  revert n. induction t as [tok|entries IH|items] using value_tree_induction;
    intros n; cbn [BuildAST.transform_value].
  - unfold BuildAST.number. destruct (Py.float tok); [|discriminate].
    now intros [= <-].
  - change (fun '(name_token, v) =>
              do v' <- BuildAST.transform_value v ;
              Ok (BuildAST.dict_entry name_token v'))
      with transform_named.
    destruct (BuildAST.transform_children transform_named entries) as [its|e] eqn:E;
      [|discriminate].
    cbn [bind]. destruct (transform_named_Ok _ _ IH E) as [_ Huniq].
    destruct (dictionary_spec its) as [[Hdup ->]|[_ [key ->]]]; [|discriminate].
    intros [= <-]. cbn [unique_keys]. now rewrite Hdup, Huniq.
  - destruct (BuildAST.transform_children BuildAST.transform_item items);
      [|discriminate].
    now intros [= <-].
Qed.

(** X9: what [BuildAST] hands to the evaluator: the declarations of the
    tree with their names, in their order, and in their values no
    dictionary, at any depth, with a key twice. *)
Theorem transformed_tree_is_well_formed (tree : start) (ast : list (string * node)) :
  BuildAST.transform tree = Ok ast ->
  map fst ast = map fst tree
  /\ forallb (fun '(_, n) => unique_keys n) ast = true.
Proof.
  unfold BuildAST.transform.
  change (fun '(name_token, v) =>
            do v' <- BuildAST.transform_value v ;
            Ok (BuildAST.const_decl name_token v'))
    with transform_named.
  apply transform_named_Ok.
  apply List.Forall_forall. intros entry _ n. apply transform_value_unique.
Qed.

Lemma transformed_tree_is_well_formed_witness :
  map fst [("a", NFloat 1); ("a", NDict [("k", NDict [("k", NFloat 2)])])]
  = map fst [("a", T_number "1");
             ("a", T_dictionary [("k", T_dictionary [("k", T_number "2")])])]
  /\ forallb (fun '(_, n) => unique_keys n)
             [("a", NFloat 1); ("a", NDict [("k", NDict [("k", NFloat 2)])])]
     = true.
Proof.
  apply (transformed_tree_is_well_formed
           [("a", T_number "1");
            ("a", T_dictionary [("k", T_dictionary [("k", T_number "2")])])]).
  reflexivity.
Defined.

(** * Further properties of dictionaries *)

(** X10: evaluation keeps the shape of a node whose dictionaries have
    distinct keys: a number or an expression resolves to a number, a
    dictionary to a dictionary with the same keys in the same order, and so
    on in the nested dictionaries. *)
Theorem evaluation_keeps_shape (env : Py.dict value) (n : node) (v : value) :
  unique_keys n = true ->
  eval_value env n = Ok v ->
  shape_matches n v = true.
Proof.
  revert v. induction n as [x|items IH|tokens] using node_induction;
    intros v Huniq.
  - now intros [= <-].
  - rewrite eval_value_dict.
    destruct (for_each (eval_entry env) items []) as [d|e] eqn:Hrun;
      [|discriminate].
    intros [= <-]. cbn [unique_keys] in Huniq.
    apply andb_true_iff in Huniq as [Hdup Hsub].
    apply negb_true_iff, has_dup_NoDup in Hdup.
    apply eval_entries_fresh in Hrun as (d' & -> & Hall); [|exact Hdup].
    cbn [app shape_matches]. clear Hdup.
    induction Hall as [|[k n] [k' v] items d [Hk Hv] _ IHall]; [reflexivity|].
    simpl in Hk, Hv. subst k'.
    inversion IH as [|? ? Hn IH']; subst. simpl in Hn.
    cbn [forallb] in Hsub. apply andb_true_iff in Hsub as [Hun Hsub].
    rewrite String.eqb_refl, (Hn v Hun Hv). cbn [andb]. now apply IHall.
  - cbn [eval_value]. destruct (eval_expr env tokens); [|discriminate].
    now intros [= <-].
Qed.

Lemma evaluation_keeps_shape_witness :
  shape_matches
    (NDict [("p", NExpr [TStr "a"; TFloat 1; TStr "+"]); ("q", NDict [("r", NFloat 2)])])
    (VDict [("p", VFloat 2); ("q", VDict [("r", VFloat 2)])])
  = true.
Proof.
  apply (evaluation_keeps_shape [("a", VFloat 1)]); reflexivity.
Defined.

(** * Further properties of the emitter *)

Section EmitterFacts.

Variable str : float -> string.

Lemma size_emit_value (name : string) (v : value) :
  size (emit_value str name v) = value_size v.
Proof.
  revert name. induction v as [x|d IH] using value_induction; intros name;
    [reflexivity|].
  cbn [emit_value size value_size]. f_equal.
  induction IH as [|[k v] d Hv _ IHd]; [reflexivity|].
  simpl in *. now rewrite Hv, IHd.
Qed.

(** X11: a call of [add_value] touches the store in three ways only: it
    appends one element for the value and each value nested in it, it
    appends the first of these to the child list of the parent, and it
    leaves every other element that was there as it was. *)
Theorem add_value_touches_only_parent (parent : nat) (name : string) (v : value)
  (st : ET.store) :
  parent < length st ->
  length (add_value str parent name v st) = length st + value_size v
  /\ add_value str parent name v st !! parent
     = ET.append_child (length st) <$> st !! parent
  /\ forall i, i < length st -> i <> parent ->
               add_value str parent name v st !! i = st !! i.
Proof.
  intros Hparent. rewrite add_value_writes_block by exact Hparent.
  split; [|split].
  - now rewrite length_app, length_alter, length_layout, size_emit_value.
  - rewrite lookup_app_l by now rewrite length_alter.
    apply list_lookup_alter_eq.
  - intros i Hi Hne. rewrite add_value_writes_block by exact Hparent.
    rewrite lookup_app_l by now rewrite length_alter.
    apply list_lookup_alter_ne. congruence.
Qed.

Lemma layout_entries (name : string) (v : value) (off : nat) :
  Forall entry_element (layout (emit_value str name v) off).
Proof.
  revert name off. induction v as [x|d IH] using value_induction; intros name off.
  - repeat constructor; simpl; eauto.
  - cbn [emit_value layout]. constructor.
    + split; [eauto | right; split; reflexivity].
    + generalize (S off) as o.
      induction IH as [|[k v] d Hv _ IHd]; intros o; simpl; [constructor|].
      apply Forall_app. split; [apply Hv | apply IHd].
Qed.

(** X12: the store [build_xml] returns holds the root at index 0, a
    [config] element without attributes and text with one child for every
    top-level entry, and after it one element for every value of the
    configuration, nested ones included; each of these has [name] as its
    only attribute and is a [number] with a text and no children or a
    [dict] without text. *)
Theorem build_xml_elements (data : Py.dict value) :
  exists kids rest,
    build_xml str data = (0, ET.mk_element "config" [] None kids :: rest)
    /\ length kids = length data
    /\ length rest = list_sum (map (fun '(_, v) => value_size v) data)
    /\ Forall entry_element rest.
Proof.
  rewrite build_xml_layout. cbn [emit layout]. eexists. eexists.
  split; [reflexivity|]. split; [|split].
  - generalize 1 as o. induction data as [|[k v] data IH]; intros o; simpl;
      [reflexivity | now rewrite IH].
  - generalize 1 as o. induction data as [|[k v] data IH]; intros o; simpl;
      [reflexivity|].
    now rewrite length_app, length_layout, size_emit_value, IH.
  - generalize 1 as o. induction data as [|[k v] data IH]; intros o; simpl;
      [constructor|].
    apply Forall_app. split; [apply layout_entries | apply IH].
Qed.

End EmitterFacts.

Lemma add_value_touches_only_parent_witness :
  length (add_value (fun _ => "1.0") 1 "d" (VDict [("x", VFloat 1); ("y", VDict [])])
            [ET.mk_element "config" [] None [1; 2];
             ET.mk_element "dict" [("name", "a")] None [];
             ET.mk_element "number" [("name", "b")] (Some "2.0") []])
  = 3 + 3.
Proof.
  refine (proj1 (add_value_touches_only_parent (fun _ => "1.0") 1 "d"
                   (VDict [("x", VFloat 1); ("y", VDict [])])
                   [ET.mk_element "config" [] None [1; 2];
                    ET.mk_element "dict" [("name", "a")] None [];
                    ET.mk_element "number" [("name", "b")] (Some "2.0") []] _)).
  simpl. lia.
Defined.

(** ** The store is a tree *)

Lemma size_positive (t : ET.tree) : 0 < size t.
Proof. destruct t. simpl. lia. Qed.

Lemma block_ids_bounds (kids : list ET.tree) (o : nat) :
  Forall (fun c => o <= c < o + list_sum (map size kids)) (block_ids size kids o).
Proof.
  revert o. induction kids as [|k kids IH]; intros o; simpl; constructor.
  - pose proof (size_positive k). lia.
  - eapply Forall_impl; [apply IH|]. simpl. intros c Hc. lia.
Qed.

Lemma blocks_children (kids : list ET.tree) :
  Forall (fun t => forall off i e,
            layout t off !! i = Some e ->
            Forall (fun c => off + i < c < off + size t) (ET.children e)) kids ->
  forall o j e,
    blocks size layout kids o !! j = Some e ->
    Forall (fun c => o + j < c < o + list_sum (map size kids)) (ET.children e).
Proof.
  induction 1 as [|k kids Hk _ IH]; intros o j e; simpl; [discriminate|].
  rewrite lookup_app_Some, length_layout. intros [Hin|[Hle Hin]].
  - eapply Forall_impl; [apply (Hk _ _ _ Hin)|]. simpl. intros c Hc. lia.
  - eapply Forall_impl; [apply (IH _ _ _ Hin)|]. simpl. intros c Hc. lia.
Qed.

Lemma layout_children (t : ET.tree) (off i : nat) (e : ET.element) :
  layout t off !! i = Some e ->
  Forall (fun c => off + i < c < off + size t) (ET.children e).
Proof.
  revert off i e.
  induction t as [tag attrib text kids IH] using tree_induction.
  intros off [|j] e; cbn [layout size]; rewrite lookup_cons.
  - intros [= <-]. cbn [ET.children].
    eapply Forall_impl; [apply block_ids_bounds|]. simpl. intros c Hc. lia.
  - intros Hin. eapply Forall_impl; [apply (blocks_children kids IH _ _ _ Hin)|].
    simpl. intros c Hc. lia.
Qed.

(** X13: in the store [build_xml] returns every child of an element is
    an element of the store that was created after its parent: child
    indices are larger than the parent's and within the store, so no
    element is its own descendant. *)
Theorem build_xml_children_follow_parent (str : float -> string)
  (data : Py.dict value) (i : nat) (e : ET.element) :
  snd (build_xml str data) !! i = Some e ->
  Forall (fun c => i < c < length (snd (build_xml str data))) (ET.children e).
Proof.
  rewrite build_xml_layout. cbn [snd]. rewrite length_layout.
  intros Hin. apply layout_children in Hin.
  eapply Forall_impl; [exact Hin|]. simpl. intros c Hc. lia.
Qed.

Lemma build_xml_children_follow_parent_witness :
  Forall (fun c =>
            2 < c < length (snd (build_xml (fun _ => "1.0")
                                   [("a", VFloat 1); ("d", VDict [("x", VFloat 2)])])))
         [3].
Proof.
  apply (build_xml_children_follow_parent (fun _ => "1.0")
           [("a", VFloat 1); ("d", VDict [("x", VFloat 2)])] 2
           (ET.mk_element "dict" [("name", "d")] None [3])).
  reflexivity.
Defined.

(** ** What the tree tells about the configuration *)

Lemma emit_value_same_print (str : float -> string) (v w : value) (k k' : string) :
  emit_value str k v = emit_value str k' w <-> k = k' /\ same_print str v w.
Proof.
  revert w k k'. induction v as [x|d IH] using value_induction;
    intros [y|d'] k k'; cbn [emit_value same_print];
    try (split; [discriminate | tauto]).
  - split; [intros [= -> ->] | intros [-> ->]]; tauto.
  - assert (Hmap : map (fun '(k, v) => emit_value str k v) d
                   = map (fun '(k, v) => emit_value str k v) d'
                   <-> same_print str (VDict d) (VDict d')).
    { cbn [same_print]. revert d'.
      induction IH as [|[k1 v1] d Hv _ IHd]; intros [|[k2 v2] d']; cbn [map];
        try (split; [discriminate | tauto]); [tauto|].
      simpl in Hv. rewrite <- IHd. split.
      + intros [= He Hm]. apply Hv in He as [-> Hs]. tauto.
      + intros (-> & Hs & ->). f_equal. apply Hv. tauto. }
    cbn [same_print] in Hmap. rewrite <- Hmap.
    split; [intros [= -> ->] | intros [-> ->]]; tauto.
Qed.

Lemma layout_injective (t t' : ET.tree) : layout t 0 = layout t' 0 -> t = t'.
Proof.
  intros Heq.
  pose proof (read_layout t [] []) as Ht.
  pose proof (read_layout t' [] []) as Ht'.
  cbn [length app] in Ht, Ht'. rewrite app_nil_r in Ht, Ht'.
  assert (Hsize : size t = size t')
    by now rewrite <- (length_layout t 0), <- (length_layout t' 0), Heq.
  rewrite Heq, Hsize, Ht' in Ht. now injection Ht.
Qed.

(** X14: two configurations give the same XML exactly when they print
    alike: the same names with the same nesting in the same order, and
    numbers with the same text. A difference in a name, in the order or in
    the nesting always shows in the tree. *)
Theorem same_xml_iff_same_print (str : float -> string) (data data' : Py.dict value) :
  build_xml str data = build_xml str data'
  <-> same_print str (VDict data) (VDict data').
Proof.
  rewrite !build_xml_layout.
  pose proof (emit_value_same_print str (VDict data) (VDict data') "" "") as Hprint.
  cbn [emit_value] in Hprint. unfold emit. split.
  - intros Heq. apply (f_equal snd) in Heq. cbn [snd] in Heq.
    apply layout_injective in Heq. injection Heq as Hmap.
    apply Hprint. now rewrite Hmap.
  - intros Hsame. assert (H : "" = "" /\ same_print str (VDict data) (VDict data'))
      by (split; [reflexivity | exact Hsame]).
    apply Hprint in H. injection H as Hmap. now rewrite Hmap.
Qed.

Lemma same_xml_iff_same_print_witness :
  build_xml (fun _ => "n") [("a", VFloat 1); ("d", VDict [("x", VFloat 2)])]
  = build_xml (fun _ => "n") [("a", VFloat 3); ("d", VDict [("x", VFloat 4)])].
Proof.
  apply (proj2 (same_xml_iff_same_print (fun _ => "n")
                  [("a", VFloat 1); ("d", VDict [("x", VFloat 2)])]
                  [("a", VFloat 3); ("d", VDict [("x", VFloat 4)])])).
  simpl. tauto.
Defined.

(** * The order of the two stages *)

(** X15: the whole tree is transformed before anything is evaluated, so on
    a tree the parser can produce a repeated key in any dictionary literal
    makes the translation fail with the duplicate-key error, also when an
    expression earlier in the source would fail to evaluate. *)
Theorem duplicate_key_reported_before_evaluation (tree : start) :
  valid_start tree = true ->
  repeats_key_start tree = true ->
  exists key, translate tree = Raise (DuplicateKeyError key).
Proof.
  intros Hvalid Hrepeats. unfold translate.
  destruct (transform_spec tree Hvalid) as [[Hno _]|[_ [key ->]]];
    [congruence | eauto].
Qed.

Lemma duplicate_key_reported_before_evaluation_witness :
  exists key,
    translate [("y", T_expr [T_expr_name "z"; T_expr_plus]);
               ("d", T_dictionary [("k", T_number "1"); ("k", T_number "2")])]
    = Raise (DuplicateKeyError key).
Proof.
  apply duplicate_key_reported_before_evaluation; reflexivity.
Defined.
